(** * The scratchpad file store of [api.py]: model and properties

    [AssistantFnc] exposes file and folder operations on a scratch directory
    (create, read, update, delete, rename, three listings and a clock).  Every
    operation that takes a path first calls [_validate_path], then acts on the
    filesystem through [pathlib] and [shutil], and returns a message string.
    The constructor fixes the scratch directory and makes it.

    Modelling choices, fixed once for the whole development:
    - the library calls behave as in CPython 3.9 to 3.12 on POSIX;
    - a Python [str] is a Rocq [string], one character per code point (code
      points below 256);
    - a filesystem state is a tree of directories and regular files with text
      content; the store has no operation that creates a symbolic link, so
      states with links are not represented and [Path.resolve] is the
      resolution of ['.'] and ['..'] that [os.path.realpath] performs on a
      link-free path;
    - an absolute path is the list of its names below ["/"];
    - the filesystem is ideal: one device, no permissions, quotas or name
      length limits, so the only OS errors are those caused by the shape of
      the tree (ENOENT, ENOTDIR, EEXIST, EISDIR, ...);
    - the real system is not ideal: a name of more than 255 bytes or a path
      of 4096 bytes or more (in UTF-8, the encoding of file names) makes
      every call fail with ENAMETOOLONG, and the
      recursive library functions ([Path.mkdir] with [parents], [Path.rglob],
      [shutil.rmtree]) need an interpreter frame, and [rmtree] a file
      descriptor, for every level of directories.  A statement whose truth
      depends on it says so: it is limited to paths [within_limits], and to
      trees [tree_within_limits], and then holds for an interpreter with the
      default recursion limit and descriptor limit;
    - a state holds no symbolic link, so a statement about a state [t] is a
      statement about link-free filesystems;
    - exceptions are values: a computation returns [Ok v] or [Raise e]
      together with the filesystem it leaves behind, and [try ... except
      Exception] is [try_except];
    - calls to [logger] are omitted, they do not influence any result. *)

From Stdlib Require Import Ascii String.
From stdpp Require Import gmap strings list fin_maps pretty sorting.

Set Warnings "-register-all".

Local Open Scope string_scope.
Local Open Scope nat_scope.
Local Open Scope list_scope.
Local Open Scope stdpp_scope.

(** ** Python strings *)

Module Str.

(** [str.isspace] on the code points below 256. *)
Definition is_space (a : ascii) : bool :=
  let n := nat_of_ascii a in
  ((9 <=? n) && (n <=? 13)) || ((28 <=? n) && (n <=? 32))
  || (n =? 133) || (n =? 160).

Fixpoint lstrip (s : string) : string :=
  match s with
  | EmptyString => EmptyString
  | String a s' => if is_space a then lstrip s' else s
  end.

Fixpoint rstrip (s : string) : string :=
  match s with
  | EmptyString => EmptyString
  | String a s' =>
      match rstrip s' with
      | EmptyString => if is_space a then EmptyString else String a EmptyString
      | r => String a r
      end
  end.

(** [s.strip()] *)
Definition strip (s : string) : string := rstrip (lstrip s).

(** [s.split(sep)] for a one-character separator: never the empty list. *)
Fixpoint split (sep : ascii) (s : string) : list string :=
  match s with
  | EmptyString => [EmptyString]
  | String a s' =>
      if Ascii.eqb a sep then EmptyString :: split sep s'
      else match split sep s' with
           | h :: tl => String a h :: tl
           | [] => [String a EmptyString]
           end
  end.

(** [sep.join(l)] *)
Fixpoint join (sep : string) (l : list string) : string :=
  match l with
  | [] => EmptyString
  | [x] => x
  | x :: l' => x +:+ sep +:+ join sep l'
  end.

(** [s.startswith(p)] *)
Fixpoint startswith (s p : string) : bool :=
  match p, s with
  | EmptyString, _ => true
  | String b p', String a s' => Ascii.eqb a b && startswith s' p'
  | String _ _, EmptyString => false
  end.

(** [s.endswith(p)] *)
Definition endswith (s p : string) : bool :=
  startswith (String.rev s) (String.rev p).

(** [c in s] for a character [c]. *)
Fixpoint contains (c : ascii) (s : string) : bool :=
  match s with
  | EmptyString => false
  | String a s' => Ascii.eqb a c || contains c s'
  end.

(** [s.rfind(c)] for a character [c]; [None] stands for [-1]. *)
Fixpoint rfind (c : ascii) (s : string) : option nat :=
  match s with
  | EmptyString => None
  | String a s' =>
      match rfind c s' with
      | Some i => Some (S i)
      | None => if Ascii.eqb a c then Some 0 else None
      end
  end.

(** [s[:n]] *)
Definition take (n : nat) (s : string) : string := String.substring 0 n s.

(** Text read back in universal-newlines mode ([newline=None]): every
    ["\r\n"] and every remaining ["\r"] becomes ["\n"]. *)
Fixpoint universal_newlines (s : string) : string :=
  match s with
  | EmptyString => EmptyString
  | String a s' =>
      if Ascii.eqb a "013" then
        match s' with
        | String b _ =>
            if Ascii.eqb b "010" then universal_newlines s'
            else String "010" (universal_newlines s')
        | EmptyString => String "010" EmptyString
        end
      else String a (universal_newlines s')
  end.

End Str.

(** ** Pure paths ([pathlib.PurePosixPath]) *)

(** A parsed path: its root (empty for a relative path, ["/"] or ["//"]) and its
    names.  [Path(s)] drops empty and ['.'] components and keeps ['..']. *)
Record PurePath := mkPath { root : string; names : list string }.

Definition splitroot (s : string) : string :=
  match s with
  | String "/" (String "/" (String "/" _)) => "/"
  | String "/" (String "/" _) => "//"
  | String "/" _ => "/"
  | _ => EmptyString
  end.

Definition is_name (x : string) : bool :=
  negb (String.eqb x EmptyString) && negb (String.eqb x ".").

Definition Path (s : string) : PurePath :=
  mkPath (splitroot s) (List.filter is_name (Str.split "/" s)).

(** [p.parts] *)
Definition parts (p : PurePath) : list string :=
  (if String.eqb (root p) EmptyString then [] else [root p]) ++ names p.

(** [str(p)] for a path relative to some directory. *)
Definition str_rel (ns : list string) : string :=
  match ns with [] => "." | _ => Str.join "/" ns end.

(** [str(p)] for an absolute path given by its names. *)
Definition str_abs (ns : list string) : string := "/" +:+ Str.join "/" ns.

(** [base / p] for an absolute [base]: an absolute [p] replaces [base] (its
    root, one slash or two, does not survive [resolve]). *)
Definition joinpath (base : list string) (p : PurePath) : list string :=
  if String.eqb (root p) EmptyString then base ++ names p else names p.

(** [p.is_relative_to(other)], both absolute: [other] is [p] or one of its
    parents. *)
Fixpoint is_relative_to (p other : list string) {struct other} : bool :=
  match other, p with
  | [], _ => true
  | y :: other', x :: p' => String.eqb x y && is_relative_to p' other'
  | _ :: _, [] => false
  end.

(** [p.parent] of an absolute path; the parent of ["/"] is ["/"]. *)
Definition parent (p : list string) : list string := removelast p.

(** [p.relative_to(base)]; [None] stands for the [ValueError] raised when
    [base] is not a prefix of [p]. *)
Fixpoint relative_to (p base : list string) {struct base}
  : option (list string) :=
  match base, p with
  | [], _ => Some p
  | y :: base', x :: p' =>
      if String.eqb x y then relative_to p' base' else None
  | _ :: _, [] => None
  end.

(** [name[:-len(suffix)]] where [suffix] is [PurePath.suffix]: the part of
    the final name from its last dot, unless that dot is the first or the last
    character of the name. *)
Definition strip_suffix (name : string) : string :=
  match Str.rfind "." name with
  | Some i =>
      if (0 <? i) && (i <? String.length name - 1) then Str.take i name
      else name
  | None => name
  end.

(** [p.with_suffix('')] on the names of [p]; [None] stands for the
    [ValueError] raised on a path with an empty name. *)
Fixpoint with_suffix_empty (ns : list string) : option (list string) :=
  match ns with
  | [] => None
  | [name] => Some [strip_suffix name]
  | x :: ns' => cons x <$> with_suffix_empty ns'
  end.

(** ** Exceptions *)

Inductive errno :=
| ENOENT | EEXIST | ENOTDIR | EISDIR | EINVAL | ENOTEMPTY | EBUSY.

Inductive exn :=
| ValueError (msg : string)
| OSError (e : errno) (filename : string) (filename2 : option string)
| ShutilError (msg : string).

Definition errno_number (e : errno) : nat :=
  match e with
  | ENOENT => 2 | EBUSY => 16 | EEXIST => 17 | ENOTDIR => 20
  | EISDIR => 21 | EINVAL => 22 | ENOTEMPTY => 39
  end.

Definition strerror (e : errno) : string :=
  match e with
  | ENOENT => "No such file or directory"
  | EBUSY => "Device or resource busy"
  | EEXIST => "File exists"
  | ENOTDIR => "Not a directory"
  | EISDIR => "Is a directory"
  | EINVAL => "Invalid argument"
  | ENOTEMPTY => "Directory not empty"
  end.

Module Repr.

Definition hex_digit (n : nat) : ascii :=
  ascii_of_nat (if n <? 10 then 48 + n else 87 + n).

Definition printable (a : ascii) : bool :=
  let n := nat_of_ascii a in
  (32 <=? n) && negb (n =? 127) && negb ((128 <=? n) && (n <=? 160))
  && negb (n =? 173).

Definition escape (quote a : ascii) : string :=
  let n := nat_of_ascii a in
  if Ascii.eqb a quote || Ascii.eqb a "\" then String "\" (String a EmptyString)
  else if n =? 9 then "\t"
  else if n =? 10 then "\n"
  else if n =? 13 then "\r"
  else if printable a then String a EmptyString
  else String "\" (String "x" (String (hex_digit (n / 16))
                                 (String (hex_digit (n mod 16)) EmptyString))).

Fixpoint escape_all (quote : ascii) (s : string) : string :=
  match s with
  | EmptyString => EmptyString
  | String a s' => escape quote a +:+ escape_all quote s'
  end.

(** [repr(s)] of a [str]. *)
Definition repr (s : string) : string :=
  let quote : ascii :=
    if Str.contains "'" s && negb (Str.contains "034" s) then "034"%char
    else "'"%char in
  String quote (escape_all quote s) +:+ String quote EmptyString.

End Repr.

(** [str(e)] *)
Definition str_exn (e : exn) : string :=
  match e with
  | ValueError msg => msg
  | ShutilError msg => msg
  | OSError e f f2 =>
      "[Errno " +:+ pretty (errno_number e) +:+ "] " +:+ strerror e +:+ ": "
      +:+ Repr.repr f
      +:+ match f2 with Some g => " -> " +:+ Repr.repr g | None => EmptyString end
  end.

(** The two failures that [_validate_path] raises itself. *)
Definition InvalidPath : exn := ValueError "Empty path is invalid".
Definition PathTraversal : exn := ValueError "Path traversal attempt detected".

(** ** Path resolution and validation *)

(** The loop of [os.path.realpath] on a link-free path: empty and ['.'] names
    are skipped, ['..'] drops the last name collected so far (and stays at
    ["/"] when there is none), any other name is appended. [acc] is reversed. *)
Fixpoint realpath (acc rest : list string) : list string :=
  match rest with
  | [] => rev acc
  | name :: rest' =>
      if String.eqb name EmptyString || String.eqb name "." then realpath acc rest'
      else if String.eqb name ".." then realpath (tail acc) rest'
      else realpath (name :: acc) rest'
  end.

(** The names on which [realpath] calls [os.lstat]. *)
Definition lstat_called (name : string) : bool :=
  is_name name && negb (String.eqb name "..").

(** [p.resolve()] for an absolute [p], in a filesystem without symbolic
    links, where no state can change its result. [os.lstat] raises
    [ValueError] on a name with a NUL character, and [realpath] does not
    catch it. *)
Definition resolve (p : list string) : exn + list string :=
  if existsb (fun name => lstat_called name && Str.contains "000" name) p
  then inl (ValueError "embedded null byte")
  else inr (realpath [] p).

(** The store: [self.scratch_dir], an absolute path. *)
Record AssistantFnc := { scratch_dir : list string }.

(** [_validate_path]: the [except] clause logs and re-raises, so the
    exceptions of the body are those of the method. *)
Definition _validate_path (self : AssistantFnc) (relative_path : string)
  : exn + list string :=
  let clean_path := Path (Str.strip relative_path) in
  match parts clean_path with
  | [] => inl InvalidPath
  | _ :: _ =>
      match resolve (joinpath (scratch_dir self) clean_path) with
      | inl e => inl e
      | inr full_path =>
          match resolve (scratch_dir self) with
          | inl e => inl e
          | inr base =>
              if is_relative_to full_path base then inr full_path
              else inl PathTraversal
          end
      end
  end.

(** ** The filesystem *)

Inductive node :=
| File (content : string)
| Dir (children : gmap string node).

(** The tree below ["/"] is a [node]; [stat] walks a path down from it the way
    the kernel does: a missing name gives ENOENT, a name looked up in a
    regular file gives ENOTDIR. *)
Fixpoint stat (t : node) (p : list string) : errno + node :=
  match p with
  | [] => inr t
  | x :: p' =>
      match t with
      | File _ => inl ENOTDIR
      | Dir ch =>
          match ch !! x with
          | None => inl ENOENT
          | Some c => stat c p'
          end
      end
  end.

(** [p.exists()], [p.is_file()], [p.is_dir()]: a failed [stat] is [False].
    (On the real system they re-raise the ENAMETOOLONG of a path that is not
    [within_limits]; the ideal filesystem has no such error.) *)
Definition exists_ (t : node) (p : list string) : bool :=
  match stat t p with inr _ => true | inl _ => false end.

Definition is_file (t : node) (p : list string) : bool :=
  match stat t p with inr (File _) => true | _ => false end.

Definition is_dir (t : node) (p : list string) : bool :=
  match stat t p with inr (Dir _) => true | _ => false end.

(** A system call that changes one directory entry: walk to the parent of
    [p], then let [f] decide from the present entry (if any) whether the call
    fails or which entry it leaves ([None]: no entry).  The callers treat
    ["/"] themselves. *)
Fixpoint modify (f : option node -> errno + option node) (p : list string)
    (t : node) : errno + node :=
  match p with
  | [] => inl EBUSY
  | x :: p' =>
      match t with
      | File _ => inl ENOTDIR
      | Dir ch =>
          match p' with
          | [] =>
              match f (ch !! x) with
              | inl e => inl e
              | inr (Some n) => inr (Dir (<[x := n]> ch))
              | inr None => inr (Dir (delete x ch))
              end
          | _ :: _ =>
              match ch !! x with
              | None => inl ENOENT
              | Some c =>
                  match modify f p' c with
                  | inl e => inl e
                  | inr c' => inr (Dir (<[x := c']> ch))
                  end
              end
          end
      end
  end.

(** [os.mkdir(p)] *)
Definition os_mkdir (p : list string) (t : node) : errno + node :=
  match p with
  | [] => inl EEXIST
  | _ => modify (fun o => match o with
                          | Some _ => inl EEXIST
                          | None => inr (Some (Dir ∅))
                          end) p t
  end.

(** [open(p, 'w')] followed by the write: creates or truncates a regular
    file.  On POSIX the text layer writes ["\n"] unchanged. *)
Definition os_write (p : list string) (content : string) (t : node)
  : errno + node :=
  match p with
  | [] => inl EISDIR
  | _ => modify (fun o => match o with
                          | Some (Dir _) => inl EISDIR
                          | _ => inr (Some (File content))
                          end) p t
  end.

(** [os.unlink(p)] *)
Definition os_unlink (p : list string) (t : node) : errno + node :=
  match p with
  | [] => inl EISDIR
  | _ => modify (fun o => match o with
                          | None => inl ENOENT
                          | Some (Dir _) => inl EISDIR
                          | Some (File _) => inr None
                          end) p t
  end.

(** [os.rename(src, dst)] (rename(2)): the source must exist; renaming a path
    onto itself does nothing; a directory cannot be moved below itself; an
    existing destination is replaced only by an entry of its own kind, and a
    directory only when it is empty. *)
Definition os_rename (src dst : list string) (t : node) : errno + node :=
  match stat t src with
  | inl e => inl e
  | inr n =>
      if bool_decide (src = dst) then inr t
      else if bool_decide (src = []) || bool_decide (dst = []) then inl EBUSY
      else if match n with Dir _ => is_relative_to dst src | File _ => false end
      then inl EINVAL
      else
        match modify (fun o =>
                        match o, n with
                        | None, _ => inr (Some n)
                        | Some (File _), File _ => inr (Some n)
                        | Some (File _), Dir _ => inl ENOTDIR
                        | Some (Dir _), File _ => inl EISDIR
                        | Some (Dir dch), Dir _ =>
                            if bool_decide (dch = ∅) then inr (Some n)
                            else inl ENOTEMPTY
                        end) dst t with
        | inl e => inl e
        | inr t1 => modify (fun _ => inr None) src t1
        end
  end.

(** ** Computations: filesystem state and exceptions *)

Inductive result (A : Type) :=
| Ok (a : A)
| Raise (e : exn).
Arguments Ok {A} a.
Arguments Raise {A} e.

Definition M (A : Type) : Type := node -> result A * node.

Definition ret {A} (a : A) : M A := fun t => (Ok a, t).
Definition raise {A} (e : exn) : M A := fun t => (Raise e, t).

Definition bind {A B} (m : M A) (k : A -> M B) : M B :=
  fun t => match m t with
           | (Ok a, t') => k a t'
           | (Raise e, t') => (Raise e, t')
           end.

Notation "x <- m ;; k" := (bind m (fun x => k))
  (at level 100, m at next level, right associativity).
Notation "m ;;; k" := (bind m (fun _ => k))
  (at level 100, right associativity).

(** [try: body except Exception as e: handler(e)] *)
Definition try_except {A} (body : M A) (handler : exn -> M A) : M A :=
  fun t => match body t with
           | (Ok a, t') => (Ok a, t')
           | (Raise e, t') => handler e t'
           end.

(** Reading the state. *)
Definition gets {A} (f : node -> A) : M A := fun t => (Ok (f t), t).

(** A system call on [p]: its errno becomes an [OSError] naming [p]. *)
Definition syscall (call : node -> errno + node) (p : list string) : M unit :=
  fun t => match call t with
           | inr t' => (Ok tt, t')
           | inl e => (Raise (OSError e (str_abs p) None), t)
           end.

(** A pure step that may raise. *)
Definition lift {A} (r : exn + A) : M A :=
  match r with
  | inr a => ret a
  | inl e => raise e
  end.

(** ** [pathlib.Path] methods that touch the filesystem *)

(** [p.mkdir(parents=False, exist_ok=exist_ok)]: FileNotFoundError is
    re-raised; any other [OSError] is swallowed when [exist_ok] holds and [p]
    is a directory. *)
Definition mkdir_here (p : list string) (exist_ok : bool) : M unit :=
  fun t => match os_mkdir p t with
           | inr t' => (Ok tt, t')
           | inl ENOENT => (Raise (OSError ENOENT (str_abs p) None), t)
           | inl e =>
               if exist_ok && is_dir t p then (Ok tt, t)
               else (Raise (OSError e (str_abs p) None), t)
           end.

(** [p.mkdir(parents=True, exist_ok=exist_ok)], with [rp] the names of [p] in
    reverse order, so that the recursive call on [p.parent] is on the tail:
    on FileNotFoundError the parent is created with [parents=True,
    exist_ok=True] and [p] is tried once more without [parents].  (The
    recursion is as deep as there are missing parents; the interpreter
    bounds it, see [within_limits].) *)
Fixpoint mkdir_parents (rp : list string) (exist_ok : bool) : M unit :=
  fun t =>
    let p := rev rp in
    match os_mkdir p t with
    | inr t' => (Ok tt, t')
    | inl ENOENT =>
        match rp with
        | [] => (Raise (OSError ENOENT (str_abs p) None), t)
        | _ :: rparent =>
            match mkdir_parents rparent true t with
            | (Ok _, t1) => mkdir_here p exist_ok t1
            | (Raise e, t1) => (Raise e, t1)
            end
        end
    | inl e =>
        if exist_ok && is_dir t p then (Ok tt, t)
        else (Raise (OSError e (str_abs p) None), t)
    end.

(** [p.mkdir(parents=parents, exist_ok=exist_ok)] *)
Definition Path_mkdir (p : list string) (parents exist_ok : bool) : M unit :=
  if parents then mkdir_parents (rev p) exist_ok else mkdir_here p exist_ok.

(** [p.write_text(content, encoding='utf-8')] *)
Definition write_text (p : list string) (content : string) : M unit :=
  syscall (os_write p content) p.

(** [p.read_text(encoding='utf-8')]: text mode with universal newlines. *)
Definition read_text (p : list string) : M string :=
  fun t => match stat t p with
           | inr (File c) => (Ok (Str.universal_newlines c), t)
           | inr (Dir _) => (Raise (OSError EISDIR (str_abs p) None), t)
           | inl e => (Raise (OSError e (str_abs p) None), t)
           end.

(** [p.unlink()] *)
Definition unlink (p : list string) : M unit := syscall (os_unlink p) p.

(** ** [shutil] *)

(** [shutil.rmtree(p)]: removes the directory [p] with everything below it.
    On ["/"] the content goes and the final [rmdir] fails.  (The library
    recurses once for a level of directories; the interpreter bounds it, see
    [tree_within_limits].) *)
Definition rmtree (p : list string) : M unit :=
  match p with
  | [] => fun t => match t with
                   | Dir _ => (Raise (OSError EBUSY (str_abs p) None), Dir ∅)
                   | File _ => (Raise (OSError ENOTDIR (str_abs p) None), t)
                   end
  | _ => syscall (modify (fun o => match o with
                                   | None => inl ENOENT
                                   | Some (File _) => inl ENOTDIR
                                   | Some (Dir _) => inr None
                                   end) p) p
  end.

(** The fallback of [shutil.move] when [os.rename] fails on a directory that
    is not moved into itself: [copytree] ([os.makedirs] of the destination,
    which must not exist, then the copy of the tree) and [rmtree]. *)
Definition copytree_fallback (src real_dst : list string) : M unit :=
  t0 <- gets (fun t => stat t src) ;;
  match t0 with
  | inl e => raise (OSError e (str_abs src) None)
  | inr n =>
      mkdir_parents (rev real_dst) false ;;;
      syscall (modify (fun _ => inr (Some n)) real_dst) real_dst ;;;
      rmtree src
  end.

(** The fallback on a regular file: [copy2] then [os.unlink]. *)
Definition copy2_fallback (src real_dst : list string) : M unit :=
  t0 <- gets (fun t => stat t src) ;;
  match t0 with
  | inl e => raise (OSError e (str_abs src) None)
  | inr (Dir _) => raise (OSError EISDIR (str_abs src) None)
  | inr (File c) => syscall (os_write real_dst c) real_dst ;;; unlink src
  end.

(** [shutil.move(src, dst)] on one device and without links.  An existing
    directory [dst] receives the source under its own base name; otherwise
    [os.rename] is tried, and when it fails a directory is refused if [dst]
    lies in it ([_destinsrc]) and copied otherwise. *)
Definition shutil_move (src dst : list string) : M unit :=
  let move_to (real_dst : list string) : M unit :=
    fun t =>
      match os_rename src real_dst t with
      | inr t' => (Ok tt, t')
      | inl _ =>
          if is_dir t src then
            if is_relative_to dst src then
              (Raise (ShutilError
                        ("Cannot move a directory '" +:+ str_abs src
                         +:+ "' into itself '" +:+ str_abs dst +:+ "'.")), t)
            else copytree_fallback src real_dst t
          else copy2_fallback src real_dst t
      end in
  d <- gets (fun t => is_dir t dst) ;;
  if d : bool then
    if bool_decide (src = dst) then syscall (os_rename src dst) src
    else
      let real_dst := dst ++ match last src with Some b => [b] | None => [] end in
      e <- gets (fun t => exists_ t real_dst) ;;
      if e : bool then
        raise (ShutilError ("Destination path '" +:+ str_abs real_dst
                            +:+ "' already exists"))
      else move_to real_dst
  else move_to dst.

(** ** Directory enumeration *)

(** The relative paths of everything below a node.  The order stands for the
    order in which [os.scandir] happens to return entries: every listing
    sorts its lines, so no result depends on it.  ([Path.rglob] recurses
    once for a level of directories; the interpreter bounds it, see
    [tree_within_limits].) *)
Fixpoint walk (n : node) : list (list string) :=
  match n with
  | File _ => []
  | Dir ch =>
      map_fold (fun name c acc =>
                  ([name] :: List.map (cons name) (walk c)) ++ acc) [] ch
  end.

(** [dir.rglob("*")]: every path strictly below [dir]; nothing when [dir] is
    not a directory. *)
Definition rglob (dir : list string) (t : node) : list (list string) :=
  match stat t dir with
  | inr n => List.map (app dir) (walk n)
  | inl _ => []
  end.

(** [dir.glob("*")]: the entries of [dir] itself. *)
Definition glob (dir : list string) (t : node) : list (list string) :=
  match stat t dir with
  | inr (Dir ch) => List.map (fun e => dir ++ [e.1]) (map_to_list ch)
  | _ => []
  end.

(** ** Sorting *)

(** [sorted(l)] with [lt] for [<]: a stable insertion sort.  Python sorts
    with another stable algorithm, and all stable sorts agree. *)
Fixpoint insert_sorted {A} (lt : A -> A -> bool) (x : A) (l : list A) : list A :=
  match l with
  | [] => [x]
  | y :: l' => if lt y x then y :: insert_sorted lt x l' else x :: l
  end.

Definition sorted {A} (lt : A -> A -> bool) (l : list A) : list A :=
  foldr (insert_sorted lt) [] l.

(** [<] on the keys [(flag, text)] of [list_all]: tuples compare on the first
    component that differs, [False < True], and [str] compares by code
    points ([String.ltb]). *)
Definition key_ltb (a b : bool * string) : bool :=
  if Bool.eqb a.1 b.1 then String.ltb a.2 b.2 else negb a.1.

(** [lambda x: (not x.endswith("(Folder)"), x)] *)
Definition folder_key (x : string) : bool * string :=
  (negb (Str.endswith x "(Folder)"), x).

(** ** The operations of [AssistantFnc] *)

Definition nl : string := String "010" EmptyString.

(** [for x in l: acc = step(x, acc)] *)
Fixpoint for_each {A B} (l : list A) (step : A -> B -> M B) (acc : B) : M B :=
  match l with
  | [] => ret acc
  | x :: l' => acc' <- step x acc ;; for_each l' step acc'
  end.

(** A [Path] never equals a [str], so [path in items] is [False] for a list
    of strings: the values compared, and Python's [==] on them. *)
Inductive pyvalue :=
| PyStr (s : string)
| PyPath (p : list string).

Definition py_eq (a b : pyvalue) : bool :=
  match a, b with
  | PyStr s1, PyStr s2 => String.eqb s1 s2
  | PyPath p1, PyPath p2 => bool_decide (p1 = p2)
  | _, _ => false
  end.

Definition py_in (x : pyvalue) (l : list pyvalue) : bool :=
  existsb (py_eq x) l.

Section Operations.

Variable self : AssistantFnc.

Definition validate (relative_path : string) : M (list string) :=
  lift (_validate_path self relative_path).

Definition value_error {A} : M A := raise (ValueError "not a subpath").

Definition create_file (file_path content : string) : M string :=
  try_except
    (full_path <- validate file_path ;;
     Path_mkdir (parent full_path) true true ;;;
     e <- gets (fun t => exists_ t full_path) ;;
     if e : bool then ret ("File " +:+ file_path +:+ " already exists")
     else
       write_text full_path content ;;;
       ret ("Created " +:+ file_path))
    (fun e => ret ("Error creating " +:+ file_path +:+ ": " +:+ str_exn e)).

Definition list_files : M string :=
  try_except
    (paths <- gets (rglob (scratch_dir self)) ;;
     file_list <-
       for_each paths
         (fun path file_list =>
            f <- gets (fun t => is_file t path) ;;
            if f : bool then
              match relative_to path (scratch_dir self) with
              | None => value_error
              | Some rel_path =>
                  match with_suffix_empty rel_path with
                  | None => value_error
                  | Some stem => ret (file_list ++ [str_rel stem])
                  end
              end
            else ret file_list) [] ;;
     ret (match file_list with
          | [] => "No files found"
          | _ => Str.join nl (sorted String.ltb file_list)
          end))
    (fun _ => ret "Error listing files").

Definition list_files_with_extensions : M string :=
  try_except
    (paths <- gets (rglob (scratch_dir self)) ;;
     file_list <-
       for_each paths
         (fun path file_list =>
            f <- gets (fun t => is_file t path) ;;
            if f : bool then
              match relative_to path (scratch_dir self) with
              | None => value_error
              | Some rel_path => ret (file_list ++ [str_rel rel_path])
              end
            else ret file_list) [] ;;
     ret (match file_list with
          | [] => "No files found"
          | _ => Str.join nl (sorted String.ltb file_list)
          end))
    (fun _ => ret "Error listing files").

Definition read_file (file_path : string) : M string :=
  try_except
    (full_path <- validate file_path ;;
     e <- gets (fun t => exists_ t full_path) ;;
     if negb e then ret ("File " +:+ file_path +:+ " not found.")
     else
       f <- gets (fun t => is_file t full_path) ;;
       if negb f then ret ("Path " +:+ file_path +:+ " is not a file.")
       else
         text <- read_text full_path ;;
         ret ("Contents of " +:+ file_path +:+ ":" +:+ nl +:+ text))
    (fun _ => ret ("Could not read " +:+ file_path)).

Definition create_folder (folder_path : string) (overwrite : bool) : M string :=
  try_except
    (full_path <- validate folder_path ;;
     e <- gets (fun t => exists_ t full_path) ;;
     if e : bool then
       f <- gets (fun t => is_file t full_path) ;;
       if f : bool then
         ret ("Path " +:+ folder_path +:+ " is a file, cannot create folder here.")
       else if negb overwrite then
         ret ("Folder " +:+ folder_path +:+ " already exists")
       else
         rmtree full_path ;;;
         Path_mkdir full_path true false ;;;
         ret ("Created folder " +:+ folder_path)
     else
       Path_mkdir full_path true false ;;;
       ret ("Created folder " +:+ folder_path))
    (fun _ => ret ("Failed to create folder " +:+ folder_path)).

(** The body of the first loop of [list_all], over [rglob("*")]. *)
Definition list_all_first (path : list string) (items : list string)
  : M (list string) :=
match relative_to path (scratch_dir self) with
| None => value_error
| Some rel_path =>
    d <- gets (fun t => is_dir t path) ;;
    if d : bool then ret (items ++ [str_rel rel_path +:+ " (Folder)"])
    else
      f <- gets (fun t => is_file t path) ;;
      if f : bool then ret (items ++ [str_rel rel_path])
      else ret items
end.

(** The body of the second loop of [list_all], over the entries of the
    root, with its test [path not in items]. *)
Definition list_all_second (path : list string) (items : list string)
  : M (list string) :=
let fresh := negb (py_in (PyPath path) (List.map PyStr items)) in
d <- gets (fun t => is_dir t path) ;;
if d && fresh then
  match relative_to path (scratch_dir self) with
  | None => value_error
  | Some rel_path => ret (items ++ [str_rel rel_path +:+ " (Folder)"])
  end
else
  f <- gets (fun t => is_file t path) ;;
  if f && fresh then
    match relative_to path (scratch_dir self) with
    | None => value_error
    | Some rel_path => ret (items ++ [str_rel rel_path])
    end
  else ret items.

(** The list that [list_all] sorts. *)
Definition list_all_items : M (list string) :=
paths <- gets (rglob (scratch_dir self)) ;;
items <- for_each paths list_all_first [] ;;
root_paths <- gets (glob (scratch_dir self)) ;;
for_each root_paths list_all_second items.

Definition list_all : M string :=
  try_except
    (items <- list_all_items ;;
     let sorted_items :=
       sorted (fun x y => key_ltb (folder_key x) (folder_key y)) items in
     ret (match sorted_items with
          | [] => "No files or folders found"
          | _ => Str.join nl sorted_items
          end))
    (fun _ => ret "Error listing files and folders").

Definition delete_folder (folder_path : string) : M string :=
  try_except
    (full_path <- validate folder_path ;;
     e <- gets (fun t => exists_ t full_path) ;;
     if negb e then ret ("Folder " +:+ folder_path +:+ " not found")
     else
       d <- gets (fun t => is_dir t full_path) ;;
       if negb d then ret ("Path " +:+ folder_path +:+ " is not a directory")
       else
         rmtree full_path ;;;
         ret ("Deleted folder " +:+ folder_path))
    (fun _ => ret ("Failed to delete folder " +:+ folder_path)).

Definition rename_file (old_path new_path : string) : M string :=
  try_except
    (src <- validate old_path ;;
     dest <- validate new_path ;;
     e <- gets (fun t => exists_ t src) ;;
     if negb e then
       ret ("Error: Source path '" +:+ old_path +:+ "' does not exist")
     else
       e' <- gets (fun t => exists_ t dest) ;;
       if e' : bool then
         ret ("Error: Destination path '" +:+ new_path +:+ "' already exists")
       else
         Path_mkdir (parent dest) true true ;;;
         shutil_move src dest ;;;
         ret ("Successfully renamed/moved '" +:+ old_path +:+ "' to '"
              +:+ new_path +:+ "'"))
    (fun e => ret ("Failed to rename '" +:+ old_path +:+ "': " +:+ str_exn e)).

Definition update_file (file_path new_content : string) : M string :=
  try_except
    (full_path <- validate file_path ;;
     e <- gets (fun t => exists_ t full_path) ;;
     if negb e then ret ("File " +:+ file_path +:+ " not found")
     else
       f <- gets (fun t => is_file t full_path) ;;
       if negb f then ret ("Path " +:+ file_path +:+ " is not a file")
       else
         write_text full_path new_content ;;;
         ret ("Updated " +:+ file_path))
    (fun _ => ret ("Failed to update " +:+ file_path)).

Definition delete_file (file_path : string) : M string :=
  try_except
    (full_path <- validate file_path ;;
     e <- gets (fun t => exists_ t full_path) ;;
     if negb e then ret ("File " +:+ file_path +:+ " not found")
     else
       f <- gets (fun t => is_file t full_path) ;;
       if negb f then ret ("Path " +:+ file_path +:+ " is not a file")
       else
         unlink full_path ;;;
         ret ("Deleted " +:+ file_path))
    (fun _ => ret ("Failed to delete " +:+ file_path)).

End Operations.

(** ** The constructor *)

(** [os.getenv(name, default)], given the value of the variable, if set. *)
Definition getenv (value : option string) (default : string) : string :=
  match value with
  | Some v => v
  | None => default
  end.

(** [__init__]: [SCRATCH_PAD_DIR] is the value of that environment variable
    and [cwd] the working directory of the process, which a relative path
    is resolved against ([os.getcwd()] is absolute and canonical).  There is
    no [try]: what [resolve] or [mkdir] raises leaves the constructor.  The
    call [super().__init__()], which registers the callable tools with the
    agent library, touches no file and is omitted like the logger. *)
Definition __init__ (SCRATCH_PAD_DIR : option string) (cwd : list string)
  : M AssistantFnc :=
  scratch_dir <-
    lift (resolve
            (joinpath cwd (Path (getenv SCRATCH_PAD_DIR "./scratchpad")))) ;;
  Path_mkdir scratch_dir true true ;;;
  ret {| scratch_dir := scratch_dir |}.

(** ** The clock *)

(** What [datetime.now()] reads: a local date and time of day; [weekday]
    counts from Monday = 0 as [datetime.weekday()] does. *)
Record datetime := {
  year : nat; month : nat; day : nat;
  hour : nat; minute : nat; weekday : nat }.

Definition day_name (d : nat) : string :=
  nth d ["Monday"; "Tuesday"; "Wednesday"; "Thursday"; "Friday"; "Saturday"]
      "Sunday".

Definition month_name (m : nat) : string :=
  nth (m - 1) ["January"; "February"; "March"; "April"; "May"; "June"; "July";
               "August"; "September"; "October"; "November"] "December".

(** Two decimal digits, as [%d], [%I] and [%M] print them. *)
Definition two_digits (n : nat) : string :=
  if n <? 10 then "0" +:+ pretty n else pretty n.

(** [now.strftime("%A, %B %d, %Y at %I:%M %p")] in the C locale. *)
Definition strftime (now : datetime) : string :=
  day_name (weekday now) +:+ ", " +:+ month_name (month now) +:+ " "
  +:+ two_digits (day now) +:+ ", " +:+ pretty (year now) +:+ " at "
  +:+ two_digits (if hour now mod 12 =? 0 then 12 else hour now mod 12)
  +:+ ":" +:+ two_digits (minute now) +:+ " "
  +:+ (if hour now <? 12 then "AM" else "PM").

(** [get_time]: no [try], and nothing in it raises. *)
Definition get_time (now : datetime) : M string := ret (strftime now).

(** ** Sample states

    A store rooted at [/srv/scratchpad], and a filesystem in which that
    directory holds [notes.txt], [notes.md] and the folder [docs] with
    [docs/plan.txt]; [/etc/passwd] lies outside. *)
Definition demo_store : AssistantFnc :=
  {| scratch_dir := ["srv"; "scratchpad"] |}.

Definition demo_fs : node :=
  Dir (<["etc" := Dir (<["passwd" := File "root:x:0:0"]> ∅)]>
       (<["srv" := Dir (<["scratchpad" :=
            Dir (<["notes.txt" := File "first"]>
                 (<["notes.md" := File "second"]>
                  (<["docs" := Dir (<["plan.txt" := File "draft"]> ∅)]> ∅)))]> ∅)]>
        ∅)).

(** The scratch directory of [demo_store] holding exactly the given entries. *)
Definition scratchpad_with (entries : gmap string node) : node :=
  Dir (<["srv" := Dir (<["scratchpad" := Dir entries]> ∅)]> ∅).

(** ** Vocabulary of the statements *)

(** What the operations can observe at a path: a regular file with its
    content, a directory, or nothing. *)
Inductive shape :=
| SFile (content : string)
| SDir.

Definition view (t : node) (q : list string) : option shape :=
  match stat t q with
  | inr (File c) => Some (SFile c)
  | inr (Dir _) => Some SDir
  | inl _ => None
  end.

(** The tree [t] with the node at [par] replaced by [n]. *)
Fixpoint graft (par : list string) (n : node) (t : node) : node :=
  match par with
  | [] => n
  | y :: par' =>
      match t with
      | Dir ch =>
          match ch !! y with
          | Some c => Dir (<[y := graft par' n c]> ch)
          | None => t
          end
      | File _ => t
      end
  end.

Definition set_entry (o : option node) (x : string) (ch : gmap string node)
  : gmap string node :=
  match o with
  | Some n => <[x := n]> ch
  | None => delete x ch
  end.

(** The prefixes of a path, the root first; and the test that none of them
    is a regular file, so that directories can be made all the way to it. *)
Fixpoint prefixes (p : list string) : list (list string) :=
  [] :: match p with
        | [] => []
        | x :: p' => List.map (cons x) (prefixes p')
        end.

Definition no_file_on (t : node) (p : list string) : bool :=
  forallb (fun q => negb (is_file t q)) (prefixes p).

(** The order of [list_all] on its lines. *)
Definition line_ltb (x y : string) : bool :=
  key_ltb (folder_key x) (folder_key y).

(** In a list sorted with [lt], [a] may stand before [b]: [b < a] is
    false. *)
Definition may_precede {A} (lt : A -> A -> bool) (a b : A) : Prop :=
  lt b a = false.

(** The line, if any, that [list_all] writes for the path [rel] below the
    scratch directory. *)
Definition entry_line (self : AssistantFnc) (t : node) (rel : list string)
  : list string :=
  if is_dir t (scratch_dir self ++ rel) then [str_rel rel +:+ " (Folder)"]
  else if is_file t (scratch_dir self ++ rel) then [str_rel rel]
  else [].

(** A computation that returns a value from every state. *)
Definition returns {A} (m : M A) : Prop :=
  forall t, exists a t', m t = (Ok a, t').

(** What may differ between [t] and [t'] outside the directory [base]:
    nothing, except that a missing parent of [base] may have become a
    directory. *)
Definition outside_kept (base : list string) (t t' : node) : Prop :=
  forall q, is_relative_to q base = false ->
    view t' q = view t q
    \/ (view t q = None /\ view t' q = Some SDir
        /\ is_relative_to base q = true).

(** A computation that keeps to [base], whatever it returns or raises. *)
Definition confined {A} (base : list string) (m : M A) : Prop :=
  forall t r t', m t = (r, t') -> outside_kept base t t'.

(** Between [t] and [t'] the only change is that missing parents of [p], or
    [p] itself, have become directories. *)
Definition dirs_added (p : list string) (t t' : node) : Prop :=
  forall q,
    view t' q = view t q
    \/ (view t q = None /\ view t' q = Some SDir /\ is_relative_to p q = true).

(** A computation that leaves the filesystem as it found it, whatever it
    returns or raises. *)
Definition readonly {A} (m : M A) : Prop :=
  forall t r t', m t = (r, t') -> t' = t.

(** A name that stands for itself in a path: not empty, not ['.'] or
    ['..'], and free of ['/'] and NUL. *)
Definition plain_name (x : string) : bool :=
  lstat_called x && negb (Str.contains "000" x) && negb (Str.contains "/" x).

(** The number of nodes of a tree, for induction on trees. *)
Fixpoint node_size (n : node) : nat :=
  match n with
  | File _ => 1
  | Dir ch => S (map_fold (fun _ c acc => node_size c + acc) 0 ch)
  end.

(** The limits of the real system, which the ideal filesystem of the model
    does not have.  [utf8_length] is the number of bytes of a string once
    encoded for the filesystem (UTF-8): one byte for a code point below 128,
    two for the others. *)
Fixpoint utf8_length (s : string) : nat :=
  match s with
  | EmptyString => 0
  | String a s' => (if nat_of_ascii a <? 128 then 1 else 2) + utf8_length s'
  end.

(** The longest name in bytes, and the least length in bytes of a path that
    is too long (the kernel counts the final NUL). *)
Definition NAME_MAX : nat := 255.
Definition PATH_MAX : nat := 4096.

(** The number of names in a path up to which the recursion of
    [Path.mkdir], [Path.rglob] and [shutil.rmtree], one frame and at most
    one descriptor for a level, stays far from the default limits of the
    interpreter (1000 frames, 1024 descriptors). *)
Definition DEPTH_MAX : nat := 100.

(** An absolute path on which the real system calls behave as those of the
    model: every name fits, the path fits, and it is not deep. *)
Definition within_limits (p : list string) : bool :=
  forallb (fun x => utf8_length x <=? NAME_MAX) p
  && (utf8_length (str_abs p) <? PATH_MAX)
  && (length p <=? DEPTH_MAX).

(** The path [p] and everything that exists below it are within the
    limits. *)
Definition tree_within_limits (t : node) (p : list string) : bool :=
  within_limits p
  && match stat t p with
     | inr n => forallb (fun rel => within_limits (p ++ rel)) (walk n)
     | inl _ => true
     end.

(** * Properties *)

(** ** Validation *)

Lemma is_relative_to_refl (p : list string) : is_relative_to p p = true.
Proof.
  induction p as [|x p IH]; simpl; [reflexivity|].
  rewrite String.eqb_refl. exact IH.
Qed.















(** C2, as stated, fails: a path with components that merely normalises to
    the root passes validation and resolves to the scratch directory, and
    [delete_folder] then removes the scratch directory itself. *)
Lemma root_target_counterexample :
  realpath [] (joinpath (scratch_dir demo_store) (Path (Str.strip "docs/..")))
  = scratch_dir demo_store
  /\ _validate_path demo_store "docs/.." = inr (scratch_dir demo_store)
  /\ _validate_path demo_store "docs/.." <> inl InvalidPath
  /\ (delete_folder demo_store "docs/.." demo_fs).1
     = Ok "Deleted folder docs/.."
  /\ exists_ demo_fs (scratch_dir demo_store) = true
  /\ exists_ (delete_folder demo_store "docs/.." demo_fs).2
       (scratch_dir demo_store) = false.
Proof. repeat split; try reflexivity. discriminate. Qed.

(** The empty-path error is raised on the inputs without parts, and on no
    other input. *)
Lemma validate_invalid_iff (self : AssistantFnc) (p : string) :
  _validate_path self p = inl InvalidPath <-> parts (Path (Str.strip p)) = [].
Proof.
  unfold _validate_path. split.
  - destruct (parts (Path (Str.strip p))); [reflexivity|].
    unfold resolve.
    repeat match goal with
           | |- context [if ?b then _ else _] => destruct b
           end; discriminate.
  - intros ->. reflexivity.
Qed.

(** The inputs without parts: relative, and nothing but empty and ['.']
    names between the separators. *)
Lemma no_parts_iff (s : string) :
  parts (Path s) = []
  <-> splitroot s = EmptyString
      /\ Forall (fun x => x = EmptyString \/ x = ".") (Str.split "/" s).
Proof.
  unfold parts, Path. simpl.
  destruct (String.eqb_spec (splitroot s) EmptyString) as [->|Hne].
  - simpl. rewrite Forall_forall. split.
    + intros Hnil. split; [reflexivity|]. intros x Hx.
      destruct (is_name x) eqn:Hn.
      * assert (In x (List.filter is_name (Str.split "/" s))) as Hin
            by (apply filter_In; split; [apply list_elem_of_In, Hx|exact Hn]).
        rewrite Hnil in Hin. destruct Hin.
      * unfold is_name in Hn. apply andb_false_iff in Hn.
        rewrite !negb_false_iff, !String.eqb_eq in Hn. exact Hn.
    + intros [_ Hall].
      destruct (List.filter is_name (Str.split "/" s)) as [|x l] eqn:Hf;
        [reflexivity|].
      assert (In x (List.filter is_name (Str.split "/" s))) as Hin
          by (rewrite Hf; left; reflexivity).
      apply filter_In in Hin as [Hin Hn].
      apply list_elem_of_In, Hall in Hin. destruct Hin as [-> | ->]; discriminate.
  - split; [discriminate|]. intros [H _]. congruence.
Qed.

(** C2, amended. An input that, once trimmed, has no path component at all
    (the empty string, or only ['.'] names and separators after no leading
    slash) is rejected by validation with the empty-path error. *)
Theorem empty_path_invalid (self : AssistantFnc) (p : string) :
  parts (Path (Str.strip p)) = [] -> _validate_path self p = inl InvalidPath.
Proof. apply validate_invalid_iff. Qed.

Lemma empty_path_invalid_witness :
  parts (Path (Str.strip "  ./.  ")) = []
  /\ _validate_path demo_store "  ./.  " = inl InvalidPath
  /\ _validate_path demo_store EmptyString = inl InvalidPath.
Proof.
  split; [reflexivity|]. split.
  - apply (empty_path_invalid demo_store "  ./.  "). reflexivity.
  - apply (empty_path_invalid demo_store EmptyString). reflexivity.
Defined.

(** ** No exception leaves an operation *)

Lemma try_except_returns {A} (body : M A) (handler : exn -> M A) :
  (forall e, returns (handler e)) -> returns (try_except body handler).
Proof.
  intros Hh t. unfold try_except.
  destruct (body t) as [[a|e] t'].
  - exists a, t'. reflexivity.
  - apply Hh.
Qed.

Lemma ret_returns {A} (a : A) : returns (ret a).
Proof. intros t. exists a, t. reflexivity. Qed.

(** C3. Whatever the arguments and the filesystem, every public operation
    returns a string: no exception of validation or of the filesystem leaves
    it. *)
Theorem operations_return_strings (self : AssistantFnc) :
  (forall p c, returns (create_file self p c))
  /\ returns (list_files self)
  /\ returns (list_files_with_extensions self)
  /\ (forall p, returns (read_file self p))
  /\ (forall p b, returns (create_folder self p b))
  /\ returns (list_all self)
  /\ (forall p, returns (delete_folder self p))
  /\ (forall p q, returns (rename_file self p q))
  /\ (forall p c, returns (update_file self p c))
  /\ (forall p, returns (delete_file self p))
  /\ (forall now, returns (get_time now)).
Proof.
  repeat split; intros;
    first [ apply try_except_returns; intros; apply ret_returns
          | apply ret_returns ].
Qed.

(** ** Listings *)

(** C5 fails on the code: the second loop of [list_all] tests a path against
    a list of strings, the test never finds it, and every entry of the root
    is listed a second time.  With one file in the scratch directory: *)
Theorem list_all_repeats_root_entries :
  let t := scratchpad_with (<["a.txt" := File "x"]> ∅) in
  rglob (scratch_dir demo_store) t = [["srv"; "scratchpad"; "a.txt"]]
  /\ list_all_items demo_store t = (Ok ["a.txt"; "a.txt"], t)
  /\ list_all demo_store t = (Ok ("a.txt" +:+ nl +:+ "a.txt"), t).
Proof. repeat split; vm_compute; reflexivity. Qed.

(** The membership test of the second loop is false for every path and
    every list of strings. *)
Lemma path_never_in_strings (path : list string) (items : list string) :
  py_in (PyPath path) (List.map PyStr items) = false.
Proof. induction items as [|x items IH]; simpl; [reflexivity|exact IH]. Qed.

(** C9 fails on the code: the sort key recognises a folder by the ending
    of the displayed line, so a file whose own name ends in ["(Folder)"] is
    sorted among the folders.  With the folder [b] and the file
    [a(Folder)], a file line comes before a folder line. *)
Theorem list_all_file_before_folder :
  let t := scratchpad_with (<["b" := Dir ∅]> (<["a(Folder)" := File "x"]> ∅)) in
  is_file t ["srv"; "scratchpad"; "a(Folder)"] = true
  /\ is_dir t ["srv"; "scratchpad"; "b"] = true
  /\ list_all demo_store t
     = (Ok ("a(Folder)" +:+ nl +:+ "a(Folder)" +:+ nl
            +:+ "b (Folder)" +:+ nl +:+ "b (Folder)"), t).
Proof. repeat split; vm_compute; reflexivity. Qed.

(** C10. [list_files] removes the final extension only, and two files that
    differ in nothing else give the same line: the output then repeats it. *)
Theorem list_files_duplicate_lines :
  with_suffix_empty ["backup"; "a.tar.gz"] = Some ["backup"; "a.tar"]
  /\ exists (t : node) (p1 p2 : list string),
      p1 <> p2
      /\ is_file t (scratch_dir demo_store ++ p1) = true
      /\ is_file t (scratch_dir demo_store ++ p2) = true
      /\ with_suffix_empty p1 = with_suffix_empty p2
      /\ list_files demo_store t = (Ok ("a" +:+ nl +:+ "a"), t).
Proof.
  split; [reflexivity|].
  exists (scratchpad_with (<["a.txt" := File "x"]> (<["a.md" := File "y"]> ∅))),
    ["a.txt"], ["a.md"].
  repeat split; try (vm_compute; reflexivity). discriminate.
Qed.

(** ** Sorting *)

Section Sorting.

Context {A : Type} (lt : A -> A -> bool).

Hypothesis lt_asym : forall a b, lt a b = true -> lt b a = false.
Hypothesis precede_trans :
  forall a b c,
    may_precede lt a b -> may_precede lt b c -> may_precede lt a c.

Lemma insert_sorted_perm (x : A) (l : list A) : insert_sorted lt x l ≡ₚ x :: l.
Proof.
  induction l as [|y l IH]; simpl; [reflexivity|].
  destruct (lt y x); [|reflexivity].
  rewrite IH. apply Permutation_swap.
Qed.

Lemma sorted_perm (l : list A) : sorted lt l ≡ₚ l.
Proof.
  induction l as [|x l IH]; simpl; [reflexivity|].
  rewrite insert_sorted_perm, IH. reflexivity.
Qed.

Lemma insert_sorted_ordered (x : A) (l : list A) :
  StronglySorted (may_precede lt) l ->
  StronglySorted (may_precede lt) (insert_sorted lt x l).
Proof.
  induction 1 as [|y l Hl IH Hy]; simpl.
  - repeat constructor.
  - destruct (lt y x) eqn:Hyx.
    + constructor; [exact IH|].
      rewrite insert_sorted_perm. constructor; [|exact Hy].
      apply lt_asym, Hyx.
    + constructor; [constructor; assumption|].
      constructor; [exact Hyx|].
      eapply Forall_impl; [exact Hy|].
      intros z Hz. apply (precede_trans x y z); assumption.
Qed.

Lemma sorted_ordered (l : list A) : StronglySorted (may_precede lt) (sorted lt l).
Proof.
  induction l as [|x l IH]; simpl; [constructor|].
  apply insert_sorted_ordered, IH.
Qed.

End Sorting.

Lemma string_ltb_leb (a b : string) : String.ltb a b = negb (String.leb b a).
Proof.
  unfold String.ltb, String.leb. rewrite (String.compare_antisym b a).
  destruct (String.compare a b); reflexivity.
Qed.

Lemma string_ltb_asym (a b : string) :
  String.ltb a b = true -> String.ltb b a = false.
Proof.
  unfold String.ltb. rewrite (String.compare_antisym b a).
  destruct (String.compare a b); simpl; congruence.
Qed.

Lemma string_precede_trans (a b c : string) :
  may_precede String.ltb a b -> may_precede String.ltb b c ->
  may_precede String.ltb a c.
Proof.
  unfold may_precede. rewrite !string_ltb_leb, !negb_false_iff.
  intros H1 H2. apply Is_true_true.
  apply Is_true_true in H1, H2.
  exact (transitivity (R := String.le) H1 H2).
Qed.

Lemma line_ltb_asym (x y : string) :
  line_ltb x y = true -> line_ltb y x = false.
Proof.
  unfold line_ltb, key_ltb, folder_key. simpl.
  destruct (Str.endswith x "(Folder)"), (Str.endswith y "(Folder)"); simpl;
    try congruence; apply string_ltb_asym.
Qed.

Lemma line_precede_trans (x y z : string) :
  may_precede line_ltb x y -> may_precede line_ltb y z ->
  may_precede line_ltb x z.
Proof.
  unfold may_precede, line_ltb, key_ltb, folder_key. simpl.
  destruct (Str.endswith x "(Folder)"), (Str.endswith y "(Folder)"),
    (Str.endswith z "(Folder)"); simpl; try congruence;
    apply string_precede_trans.
Qed.

(** What the sort of [list_all] does achieve: the lines that end in
    ["(Folder)"] come first, and each of the two groups is in ascending
    order. *)
Lemma may_precede_line (x y : string) :
  may_precede line_ltb x y
  <-> (Str.endswith x "(Folder)" = true /\ Str.endswith y "(Folder)" = false)
      \/ (Str.endswith x "(Folder)" = Str.endswith y "(Folder)"
          /\ String.leb x y = true).
Proof.
  unfold may_precede, line_ltb, key_ltb, folder_key. simpl.
  rewrite string_ltb_leb.
  destruct (Str.endswith x "(Folder)"), (Str.endswith y "(Folder)"); simpl;
    rewrite ?negb_false_iff; intuition congruence.
Qed.

Lemma list_all_sorted (self : AssistantFnc) (t t' : node) (items : list string) :
  list_all_items self t = (Ok items, t') ->
  exists lines,
    lines ≡ₚ items
    /\ StronglySorted (may_precede line_ltb) lines
    /\ list_all self t
       = (Ok (match lines with
              | [] => "No files or folders found"
              | _ => Str.join nl lines
              end), t').
Proof.
  intros H. exists (sorted line_ltb items). split; [apply sorted_perm|].
  split.
  - apply sorted_ordered; [apply line_ltb_asym|apply line_precede_trans].
  - unfold list_all, try_except, bind. rewrite H. reflexivity.
Qed.

(** ** The second loop of [list_all] *)

(** Whatever [items] holds already, the second loop appends the line of a
    file once more. *)
Lemma list_all_second_file (self : AssistantFnc) (path rel : list string)
    (items : list string) (t : node) :
  relative_to path (scratch_dir self) = Some rel ->
  is_file t path = true ->
  list_all_second self path items t = (Ok (items ++ [str_rel rel]), t).
Proof.
  intros Hrel Hf.
  assert (is_dir t path = false) as Hd.
  { unfold is_file, is_dir in *. destruct (stat t path) as [e|[c|ch]];
      congruence. }
  unfold list_all_second, bind, gets, ret. cbv beta iota.
  rewrite path_never_in_strings, Hrel, Hd. cbn [negb andb]. cbv beta iota.
  rewrite Hf. reflexivity.
Qed.

Lemma list_all_second_dir (self : AssistantFnc) (path rel : list string)
    (items : list string) (t : node) :
  relative_to path (scratch_dir self) = Some rel ->
  is_dir t path = true ->
  list_all_second self path items t
  = (Ok (items ++ [str_rel rel +:+ " (Folder)"]), t).
Proof.
  intros Hrel Hd.
  unfold list_all_second, bind, gets, ret. cbv beta iota.
  rewrite path_never_in_strings, Hrel, Hd. reflexivity.
Qed.

(** ** The tree under system calls *)

Lemma is_relative_to_spec (q p : list string) :
  is_relative_to q p = true <-> exists r, q = p ++ r.
Proof.
  revert q. induction p as [|y p IH]; intros q; simpl.
  - split; [intros _; exists q; reflexivity | reflexivity].
  - destruct q as [|x q].
    + split; [discriminate | intros [r Hr]; discriminate].
    + rewrite andb_true_iff, String.eqb_eq, IH. split.
      * intros [-> [r ->]]. exists r. reflexivity.
      * intros [r Hr]. injection Hr as -> ->. split; [reflexivity | eauto].
Qed.

Lemma is_relative_to_app (p r : list string) : is_relative_to (p ++ r) p = true.
Proof. apply is_relative_to_spec. exists r. reflexivity. Qed.

Lemma is_relative_to_snoc (par q : list string) (x : string) :
  is_relative_to (par ++ [x]) q
  = bool_decide (q = par ++ [x]) || is_relative_to par q.
Proof.
  apply eq_true_iff_eq.
  rewrite orb_true_iff, bool_decide_eq_true, !is_relative_to_spec. split.
  - intros [r Hr]. induction r as [|y r' _] using rev_ind.
    + left. rewrite app_nil_r in Hr. congruence.
    + right. exists r'. rewrite app_assoc in Hr.
      apply app_inj_tail in Hr. tauto.
  - intros [->|[r ->]].
    + exists []. rewrite app_nil_r. reflexivity.
    + exists (r ++ [x]). rewrite app_assoc. reflexivity.
Qed.

Lemma stat_app (t : node) (p q : list string) :
  stat t (p ++ q)
  = match stat t p with
    | inl e => inl e
    | inr n => stat n q
    end.
Proof.
  revert t. induction p as [|x p IH]; intros t; simpl; [reflexivity|].
  destruct t as [c|ch]; [reflexivity|].
  destruct (ch !! x); [apply IH | reflexivity].
Qed.

Lemma stat_errno (t : node) (q : list string) (e : errno) :
  stat t q = inl e -> e = ENOENT \/ e = ENOTDIR.
Proof.
  revert t. induction q as [|x q IH]; intros t; simpl; [discriminate|].
  destruct t as [c|ch]; [intros [= <-]; tauto|].
  destruct (ch !! x); [apply IH | intros [= <-]; tauto].
Qed.

(** ENOTDIR means that the walk met a regular file. *)
Lemma stat_ENOTDIR (t : node) (q : list string) :
  stat t q = inl ENOTDIR ->
  exists q', is_relative_to q q' = true /\ is_file t q' = true.
Proof.
  revert t. induction q as [|x q IH]; intros t; simpl; [discriminate|].
  destruct t as [c|ch].
  - intros _. exists []. split; reflexivity.
  - destruct (ch !! x) as [c|] eqn:Hx; [|discriminate].
    intros H. destruct (IH _ H) as (q' & Hrel & Hfile).
    exists (x :: q'). split.
    + simpl. rewrite String.eqb_refl. exact Hrel.
    + unfold is_file in *. simpl. rewrite Hx. exact Hfile.
Qed.

Lemma view_app_None (t : node) (p r : list string) :
  view t p = None -> view t (p ++ r) = None.
Proof.
  unfold view. rewrite stat_app.
  destruct (stat t p) as [e|[c|ch]]; [reflexivity|discriminate|discriminate].
Qed.

Lemma view_app_Some (t : node) (p r : list string) (s : shape) :
  view t (p ++ r) = Some s -> r <> [] -> view t p = Some SDir.
Proof.
  unfold view. rewrite stat_app.
  destruct (stat t p) as [e|[c|ch]]; [discriminate| |reflexivity].
  destruct r; [congruence|discriminate].
Qed.

Lemma view_dir (t : node) (q : list string) :
  view t q = Some SDir <-> exists ch, stat t q = inr (Dir ch).
Proof.
  unfold view. destruct (stat t q) as [e|[c|ch]]; split;
    try discriminate; try (intros [ch' H]; discriminate); eauto.
Qed.

Lemma view_file (t : node) (q : list string) (c : string) :
  view t q = Some (SFile c) <-> stat t q = inr (File c).
Proof.
  unfold view. destruct (stat t q) as [e|[c'|ch]]; split;
    try discriminate; congruence.
Qed.

Lemma exists_view (t : node) (q : list string) :
  exists_ t q = match view t q with Some _ => true | None => false end.
Proof. unfold exists_, view. destruct (stat t q) as [e|[c|ch]]; reflexivity. Qed.

Lemma is_file_view (t : node) (q : list string) :
  is_file t q = match view t q with Some (SFile _) => true | _ => false end.
Proof. unfold is_file, view. destruct (stat t q) as [e|[c|ch]]; reflexivity. Qed.

Lemma is_dir_view (t : node) (q : list string) :
  is_dir t q = match view t q with Some SDir => true | _ => false end.
Proof. unfold is_dir, view. destruct (stat t q) as [e|[c|ch]]; reflexivity. Qed.

Lemma stat_graft_below (par : list string) (n t m : node) (r : list string) :
  stat t par = inr m -> stat (graft par n t) (par ++ r) = stat n r.
Proof.
  revert t. induction par as [|y par IH]; intros t; simpl; [reflexivity|].
  destruct t as [c|ch]; [discriminate|].
  destruct (ch !! y) as [c|] eqn:Hy; [|discriminate].
  intros H. simpl. rewrite lookup_insert_eq. apply IH, H.
Qed.

Lemma view_graft_frame (par : list string) (n t : node) (q : list string) :
  view t par = Some SDir -> view n [] = Some SDir ->
  is_relative_to q par = false ->
  view (graft par n t) q = view t q.
Proof.
  revert t q. induction par as [|y par IH]; intros t q Hpar Hn Hq.
  - discriminate.
  - simpl. destruct t as [c|ch]; [reflexivity|].
    destruct (ch !! y) as [c|] eqn:Hy; [|reflexivity].
    destruct q as [|z q]; [reflexivity|].
    unfold view. simpl. destruct (decide (y = z)) as [<-|Hne].
    + rewrite lookup_insert_eq, Hy. apply IH.
      * unfold view in *. simpl in Hpar. rewrite Hy in Hpar. exact Hpar.
      * exact Hn.
      * simpl in Hq. rewrite String.eqb_refl in Hq. exact Hq.
    + rewrite lookup_insert_ne by exact Hne. reflexivity.
Qed.

Lemma modify_cons2 f (y z : string) (w : list string) (ch : gmap string node) :
  modify f (y :: z :: w) (Dir ch)
  = match ch !! y with
    | None => inl ENOENT
    | Some c =>
        match modify f (z :: w) c with
        | inl e => inl e
        | inr c' => inr (Dir (<[y := c']> ch))
        end
    end.
Proof. reflexivity. Qed.

Lemma modify_snoc f (par : list string) (x : string) (t : node) :
  modify f (par ++ [x]) t
  = match stat t par with
    | inl e => inl e
    | inr (File _) => inl ENOTDIR
    | inr (Dir ch) =>
        match f (ch !! x) with
        | inl e => inl e
        | inr o => inr (graft par (Dir (set_entry o x ch)) t)
        end
    end.
Proof.
  revert t. induction par as [|y par IH]; intros t.
  - simpl. destruct t as [c|ch]; [reflexivity|].
    destruct (f (ch !! x)) as [e|[n|]]; reflexivity.
  - rewrite <- app_comm_cons.
    destruct t as [c|ch]; [reflexivity|].
    destruct (par ++ [x]) as [|z w] eqn:Hp.
    { destruct par; discriminate. }
    rewrite modify_cons2. cbn [stat].
    destruct (ch !! y) as [c|] eqn:Hy; [|reflexivity].
    rewrite IH. destruct (stat c par) as [e|[c'|ch']]; try reflexivity.
    destruct (f (ch' !! x)); [reflexivity|].
    simpl. rewrite Hy. reflexivity.
Qed.

Lemma snoc_cases (p : list string) : p = [] \/ exists par x, p = par ++ [x].
Proof.
  induction p as [|x par _] using rev_ind; [left; reflexivity|].
  right. exists par, x. reflexivity.
Qed.

Lemma parent_snoc (par : list string) (x : string) : parent (par ++ [x]) = par.
Proof. apply removelast_last. Qed.

Lemma modify_inv f (p : list string) (t t' : node) :
  modify f p t = inr t' ->
  exists par x ch o,
    p = par ++ [x] /\ stat t par = inr (Dir ch) /\ f (ch !! x) = inr o
    /\ t' = graft par (Dir (set_entry o x ch)) t.
Proof.
  destruct (snoc_cases p) as [->|(par & x & ->)]; [discriminate|].
  rewrite modify_snoc.
  destruct (stat t par) as [e|[c|ch]] eqn:Hs; try discriminate.
  destruct (f (ch !! x)) as [e|o] eqn:Hf; [discriminate|].
  intros [= <-]. exists par, x, ch, o. repeat split; auto.
Qed.

(** The entry at [par/x] after the change, and everything below it. *)
Lemma graft_view_at (par : list string) (x : string) (o : option node)
    (ch : gmap string node) (t : node) (r : list string) :
  stat t par = inr (Dir ch) ->
  view (graft par (Dir (set_entry o x ch)) t) (par ++ x :: r)
  = match o with
    | Some n => view n r
    | None => None
    end.
Proof.
  intros Hpar. unfold view. rewrite (stat_graft_below _ _ _ _ _ Hpar).
  simpl. destruct o as [n|]; simpl.
  - rewrite lookup_insert_eq. reflexivity.
  - rewrite lookup_delete_eq. reflexivity.
Qed.

(** Everything that is not at or below [par/x] looks as before. *)
Lemma graft_view_frame (par : list string) (x : string) (o : option node)
    (ch : gmap string node) (t : node) (q : list string) :
  stat t par = inr (Dir ch) ->
  is_relative_to q (par ++ [x]) = false ->
  view (graft par (Dir (set_entry o x ch)) t) q = view t q.
Proof.
  intros Hpar Hq.
  destruct (is_relative_to q par) eqn:Hqpar.
  - apply is_relative_to_spec in Hqpar as [r ->].
    unfold view. rewrite (stat_graft_below _ _ _ _ _ Hpar), stat_app, Hpar.
    destruct r as [|z r]; [reflexivity|].
    assert (x <> z) as Hne.
    { intros <-.
      replace (par ++ x :: r) with ((par ++ [x]) ++ r) in Hq
        by (rewrite <- app_assoc; reflexivity).
      rewrite is_relative_to_app in Hq. discriminate. }
    simpl. destruct o as [n|]; simpl.
    + rewrite lookup_insert_ne by exact Hne. reflexivity.
    + rewrite lookup_delete_ne by exact Hne. reflexivity.
  - apply view_graft_frame; [apply view_dir; eauto|reflexivity|exact Hqpar].
Qed.

Lemma stat_snoc (t : node) (par : list string) (x : string)
    (ch : gmap string node) :
  stat t par = inr (Dir ch) ->
  stat t (par ++ [x])
  = match ch !! x with Some c => inr c | None => inl ENOENT end.
Proof.
  intros H. rewrite stat_app, H. simpl. destruct (ch !! x); reflexivity.
Qed.

(** ** What [list_all] lists *)

Lemma relative_to_app (base rel : list string) :
  relative_to (base ++ rel) base = Some rel.
Proof.
  induction base as [|y base IH]; simpl; [reflexivity|].
  rewrite String.eqb_refl. exact IH.
Qed.

(** Both loops of [list_all] append the line of each path they visit: the
    test of the second loop never holds a path back. *)
Lemma list_all_first_lines (self : AssistantFnc) (t : node)
    (rels : list (list string)) (items : list string) :
  for_each (List.map (app (scratch_dir self)) rels) (list_all_first self)
    items t
  = (Ok (items ++ concat (List.map (entry_line self t) rels)), t).
Proof.
  revert items. induction rels as [|rel rels IH]; intros items;
    cbn [for_each List.map concat].
  - rewrite app_nil_r. reflexivity.
  - unfold bind at 1, list_all_first at 1. rewrite relative_to_app.
    unfold bind at 1, gets at 1, entry_line at 1.
    destruct (is_dir t (scratch_dir self ++ rel)).
    + unfold ret at 1. rewrite IH, <- app_assoc. reflexivity.
    + unfold bind at 1, gets at 1.
      destruct (is_file t (scratch_dir self ++ rel)); unfold ret at 1;
        rewrite IH, <- ?app_assoc; reflexivity.
Qed.

Lemma list_all_second_lines (self : AssistantFnc) (t : node)
    (rels : list (list string)) (items : list string) :
  for_each (List.map (app (scratch_dir self)) rels) (list_all_second self)
    items t
  = (Ok (items ++ concat (List.map (entry_line self t) rels)), t).
Proof.
  revert items. induction rels as [|rel rels IH]; intros items;
    cbn [for_each List.map concat].
  - rewrite app_nil_r. reflexivity.
  - unfold bind at 1, list_all_second at 1.
    rewrite path_never_in_strings, relative_to_app.
    unfold bind at 1, gets at 1, entry_line at 1. cbn [negb].
    rewrite !andb_true_r.
    destruct (is_dir t (scratch_dir self ++ rel)); cbv iota.
    + unfold ret at 1. rewrite IH, <- app_assoc. reflexivity.
    + unfold bind at 1, gets at 1.
      destruct (is_file t (scratch_dir self ++ rel)); cbn [andb]; cbv iota;
        unfold ret at 1; rewrite IH, <- ?app_assoc; reflexivity.
Qed.

(** The list that [list_all] sorts: the lines of everything below the root,
    followed by the lines of the entries of the root once more. *)
Lemma list_all_items_lines (self : AssistantFnc) (t : node)
    (ch : gmap string node) :
  stat t (scratch_dir self) = inr (Dir ch) ->
  list_all_items self t
  = (Ok (concat (List.map (entry_line self t) (walk (Dir ch)))
         ++ concat (List.map (entry_line self t)
                      (List.map (fun e => [e.1]) (map_to_list ch)))), t).
Proof.
  intros Hroot. unfold list_all_items, bind, gets, rglob, glob.
  rewrite Hroot, list_all_first_lines. cbv beta iota. rewrite Hroot.
  cbn [app].
  assert (List.map (fun e : string * node => scratch_dir self ++ [e.1])
            (map_to_list ch)
          = List.map (app (scratch_dir self))
              (List.map (fun e : string * node => [e.1]) (map_to_list ch)))
    as -> by (rewrite List.map_map; reflexivity).
  apply list_all_second_lines.
Qed.

Lemma walk_children (ch : gmap string node) (x : string) (n : node) :
  ch !! x = Some n -> [x] ∈ walk (Dir ch).
Proof.
  simpl. revert x n.
  apply (map_fold_weak_ind
           (fun (r : list (list string)) (m : gmap string node) =>
              forall x n, m !! x = Some n -> [x] ∈ r)).
  - intros x n H. rewrite lookup_empty in H. discriminate.
  - intros i c m r Hi IH x n Hx.
    destruct (decide (i = x)) as [->|Hne].
    + simpl. left.
    + rewrite lookup_insert_ne in Hx by exact Hne.
      simpl. right. apply elem_of_app. right. exact (IH _ _ Hx).
Qed.

(** Every entry of the scratch directory has its line in the list twice. *)
Lemma list_all_items_twice (self : AssistantFnc) (t : node)
    (ch : gmap string node) (x : string) (n : node) :
  stat t (scratch_dir self) = inr (Dir ch) ->
  ch !! x = Some n ->
  let line := match n with
              | Dir _ => x +:+ " (Folder)"
              | File _ => x
              end in
  exists l1 l2 l3,
    list_all_items self t = (Ok (l1 ++ line :: l2 ++ line :: l3), t).
Proof.
  intros Hroot Hx line.
  assert (entry_line self t [x] = [line]) as Hline.
  { unfold entry_line, is_dir, is_file.
    rewrite (stat_snoc _ _ _ _ Hroot), Hx. destruct n; reflexivity. }
  assert (forall rels, [x] ∈ rels ->
                       line ∈ concat (List.map (entry_line self t) rels))
    as Hin.
  { intros rels Hrel. apply list_elem_of_split in Hrel as (r1 & r2 & ->).
    rewrite List.map_app, concat_app. apply elem_of_app. right.
    simpl. rewrite Hline. left. }
  rewrite (list_all_items_lines _ _ _ Hroot).
  destruct (list_elem_of_split _ _ (Hin _ (walk_children _ _ _ Hx)))
    as (l1 & l2 & ->).
  assert ([x] ∈ List.map (fun e : string * node => [e.1]) (map_to_list ch))
    as Hglob.
  { apply (list_elem_of_fmap_2' _ _ (x, n)); [|reflexivity].
    apply elem_of_map_to_list, Hx. }
  destruct (list_elem_of_split _ _ (Hin _ Hglob)) as (l3 & l4 & ->).
  exists l1, (l2 ++ l3), l4. rewrite <- !app_assoc. reflexivity.
Qed.

(** ** Paths and their parents *)

Lemma is_relative_to_snoc_self (par : list string) (x : string) :
  is_relative_to par (par ++ [x]) = false.
Proof.
  destruct (is_relative_to par (par ++ [x])) eqn:H; [|reflexivity].
  apply is_relative_to_spec in H as [r Hr].
  apply (f_equal length) in Hr. rewrite !length_app in Hr. simpl in Hr. lia.
Qed.

(** ** [os.mkdir] and [Path.mkdir] *)

Lemma os_mkdir_snoc (par : list string) (x : string) (t : node) :
  os_mkdir (par ++ [x]) t
  = match stat t par with
    | inl e => inl e
    | inr (File _) => inl ENOTDIR
    | inr (Dir ch) =>
        match ch !! x with
        | Some _ => inl EEXIST
        | None => inr (graft par (Dir (set_entry (Some (Dir ∅)) x ch)) t)
        end
    end.
Proof.
  unfold os_mkdir.
  destruct (par ++ [x]) eqn:E; [destruct par; discriminate|].
  rewrite <- E, modify_snoc.
  destruct (stat t par) as [e|[c|ch]]; try reflexivity.
  destruct (ch !! x); reflexivity.
Qed.

Lemma os_mkdir_exists (p : list string) (t : node) (s : shape) :
  view t p = Some s -> os_mkdir p t = inl EEXIST.
Proof.
  destruct (snoc_cases p) as [->|(par & x & ->)]; [reflexivity|].
  intros Hp. assert (view t par = Some SDir) as Hpar.
  { apply (view_app_Some _ _ _ _ Hp). discriminate. }
  apply view_dir in Hpar as [ch Hpar].
  unfold view in Hp. rewrite (stat_snoc _ _ _ _ Hpar) in Hp.
  rewrite os_mkdir_snoc, Hpar.
  destruct (ch !! x); [reflexivity|discriminate].
Qed.

Lemma os_mkdir_fresh (p : list string) (t : node) :
  view t p = None -> view t (parent p) = Some SDir ->
  exists t', os_mkdir p t = inr t'
    /\ forall q, view t' q = if bool_decide (q = p) then Some SDir else view t q.
Proof.
  destruct (snoc_cases p) as [->|(par & x & ->)].
  { intros H1 H2. simpl in H2. congruence. }
  rewrite parent_snoc. intros Hp Hpar.
  apply view_dir in Hpar as [ch Hpar].
  assert (ch !! x = None) as Hx.
  { unfold view in Hp. rewrite (stat_snoc _ _ _ _ Hpar) in Hp.
    destruct (ch !! x) as [[c|ch']|]; [discriminate|discriminate|reflexivity]. }
  rewrite os_mkdir_snoc, Hpar, Hx.
  eexists. split; [reflexivity|]. intros q.
  destruct (is_relative_to q (par ++ [x])) eqn:Hq.
  - apply is_relative_to_spec in Hq as [r ->].
    rewrite <- app_assoc. cbn [app].
    rewrite (graft_view_at _ _ _ _ _ _ Hpar). cbn [view stat].
    destruct r as [|z r].
    + rewrite bool_decide_eq_true_2; reflexivity.
    + rewrite bool_decide_eq_false_2.
      * replace (par ++ x :: z :: r) with ((par ++ [x]) ++ z :: r)
          by (rewrite <- app_assoc; reflexivity).
        symmetry. apply view_app_None.
        unfold view. rewrite (stat_snoc _ _ _ _ Hpar), Hx. reflexivity.
      * intros H. apply (f_equal length) in H.
        rewrite !length_app in H. simpl in H. lia.
  - rewrite (graft_view_frame _ _ _ _ _ _ Hpar Hq).
    rewrite bool_decide_eq_false_2; [reflexivity|].
    intros ->. rewrite is_relative_to_refl in Hq. discriminate.
Qed.

Lemma os_mkdir_no_parent (p : list string) (t : node) :
  view t (parent p) = None ->
  (forall q, is_relative_to p q = true -> is_file t q = false) ->
  os_mkdir p t = inl ENOENT.
Proof.
  destruct (snoc_cases p) as [->|(par & x & ->)].
  { intros H _. simpl in H. unfold view in H. simpl in H.
    destruct t; discriminate. }
  rewrite parent_snoc. intros Hpar Hfiles.
  rewrite os_mkdir_snoc. unfold view in Hpar.
  destruct (stat t par) as [e|[c|ch]] eqn:Hs; try discriminate.
  destruct (stat_errno _ _ _ Hs) as [->| ->]; [reflexivity|].
  apply stat_ENOTDIR in Hs as (q' & Hrel & Hfile).
  rewrite Hfiles in Hfile; [discriminate|].
  rewrite is_relative_to_snoc, Hrel. apply orb_true_r.
Qed.

Lemma mkdir_parents_eq (rp : list string) (exist_ok : bool) (t : node) :
  mkdir_parents rp exist_ok t
  = match os_mkdir (rev rp) t with
    | inr t' => (Ok tt, t')
    | inl ENOENT =>
        match rp with
        | [] => (Raise (OSError ENOENT (str_abs (rev rp)) None), t)
        | _ :: rparent =>
            match mkdir_parents rparent true t with
            | (Ok _, t1) => mkdir_here (rev rp) exist_ok t1
            | (Raise e, t1) => (Raise e, t1)
            end
        end
    | inl e =>
        if exist_ok && is_dir t (rev rp) then (Ok tt, t)
        else (Raise (OSError e (str_abs (rev rp)) None), t)
    end.
Proof. destruct rp; reflexivity. Qed.

(** On an existing directory, [mkdir(parents=True, exist_ok=True)] does
    nothing. *)
Lemma Path_mkdir_existing (p : list string) (t : node) :
  is_dir t p = true -> Path_mkdir p true true t = (Ok tt, t).
Proof.
  intros Hd. unfold Path_mkdir. rewrite mkdir_parents_eq, rev_involutive.
  rewrite is_dir_view in Hd.
  destruct (view t p) as [[c|]|] eqn:Hv; try discriminate.
  rewrite (os_mkdir_exists _ _ _ Hv), is_dir_view, Hv. reflexivity.
Qed.

(** When no file is in the way, [mkdir(parents=True, exist_ok=True)] succeeds
    and leaves a directory at [p] and at each of its parents; nothing else
    changes. *)
Lemma Path_mkdir_parents (p : list string) (t : node) :
  (forall q, is_relative_to p q = true -> is_file t q = false) ->
  exists t', Path_mkdir p true true t = (Ok tt, t')
    /\ forall q, view t' q
                 = if is_relative_to p q then Some SDir else view t q.
Proof.
  unfold Path_mkdir. revert t.
  induction p as [|x par IH] using rev_ind; intros t Hfiles.
  - exists t. split.
    + rewrite mkdir_parents_eq. simpl.
      specialize (Hfiles [] eq_refl). unfold is_file, is_dir in *. simpl in *.
      destruct t; [discriminate|reflexivity].
    + intros q. destruct q as [|z q]; [|reflexivity].
      specialize (Hfiles [] eq_refl). unfold is_file, view in *. simpl in *.
      destruct t; [discriminate|reflexivity].
  - assert (forall q, is_relative_to par q = true -> is_file t q = false)
      as Hfiles'.
    { intros q Hq. apply Hfiles. rewrite is_relative_to_snoc, Hq.
      apply orb_true_r. }
    assert (forall q, is_relative_to par q = true ->
                      view t par = Some SDir -> view t q = Some SDir) as Hup.
    { intros q Hq Hpar. apply is_relative_to_spec in Hq as [r ->].
      destruct r as [|z r]; [rewrite app_nil_r in Hpar; exact Hpar|].
      apply (view_app_Some _ _ _ _ Hpar). discriminate. }
    rewrite rev_unit, mkdir_parents_eq. cbn [rev]. rewrite rev_involutive.
    pose proof (Hfiles (par ++ [x]) (is_relative_to_refl _)) as Hp.
    rewrite is_file_view in Hp.
    destruct (view t (par ++ [x])) as [[c|]|] eqn:Hv; [discriminate| |].
    + (* the directory is there already *)
      rewrite (os_mkdir_exists _ _ _ Hv), is_dir_view, Hv. simpl.
      exists t. split; [reflexivity|]. intros q.
      destruct (is_relative_to (par ++ [x]) q) eqn:Hq; [|reflexivity].
      apply is_relative_to_spec in Hq as [r Hr].
      destruct r as [|z r]; [rewrite app_nil_r in Hr; congruence|].
      rewrite Hr in Hv. apply (view_app_Some _ _ _ _ Hv). discriminate.
    + pose proof (Hfiles' par (is_relative_to_refl _)) as Hpf.
      rewrite is_file_view in Hpf.
      destruct (view t par) as [[c|]|] eqn:Hvpar; [discriminate| |].
      * (* the parent is there: one [os.mkdir] *)
        destruct (os_mkdir_fresh (par ++ [x]) t Hv) as (t' & Hmk & Hview).
        { rewrite parent_snoc. exact Hvpar. }
        rewrite Hmk. exists t'. split; [reflexivity|]. intros q.
        rewrite Hview, is_relative_to_snoc.
        destruct (bool_decide (q = par ++ [x])); [reflexivity|]. simpl.
        destruct (is_relative_to par q) eqn:Hq; [|reflexivity].
        apply Hup; [exact Hq|reflexivity].
      * (* the parent is missing: create it first *)
        rewrite (os_mkdir_no_parent (par ++ [x]) t).
        2:{ rewrite parent_snoc. exact Hvpar. }
        2:{ exact Hfiles. }
        destruct (IH t Hfiles') as (t1 & Hrec & Hview1).
        rewrite Hrec. unfold mkdir_here.
        destruct (os_mkdir_fresh (par ++ [x]) t1) as (t' & Hmk & Hview).
        { rewrite Hview1, is_relative_to_snoc_self. exact Hv. }
        { rewrite parent_snoc, Hview1, is_relative_to_refl. reflexivity. }
        rewrite Hmk. exists t'. split; [reflexivity|]. intros q.
        rewrite Hview, Hview1, is_relative_to_snoc.
        destruct (bool_decide (q = par ++ [x])); reflexivity.
Qed.

(** ** Writing a file *)

Lemma os_write_snoc (par : list string) (x c : string) (t : node) :
  os_write (par ++ [x]) c t
  = match stat t par with
    | inl e => inl e
    | inr (File _) => inl ENOTDIR
    | inr (Dir ch) =>
        match ch !! x with
        | Some (Dir _) => inl EISDIR
        | _ => inr (graft par (Dir (set_entry (Some (File c)) x ch)) t)
        end
    end.
Proof.
  unfold os_write.
  destruct (par ++ [x]) eqn:E; [destruct par; discriminate|].
  rewrite <- E, modify_snoc.
  destruct (stat t par) as [e|[c'|ch]]; try reflexivity.
  destruct (ch !! x) as [[c'|ch']|]; reflexivity.
Qed.

Lemma os_write_inv (p : list string) (c : string) (t t' : node) :
  os_write p c t = inr t' ->
  p <> []
  /\ view t' (parent p) = Some SDir
  /\ view t' p = Some (SFile c)
  /\ forall q, is_relative_to q p = false -> view t' q = view t q.
Proof.
  destruct (snoc_cases p) as [->|(par & x & ->)]; [discriminate|].
  rewrite os_write_snoc, parent_snoc.
  destruct (stat t par) as [e|[c'|ch]] eqn:Hpar; try discriminate.
  intros H.
  assert (t' = graft par (Dir (set_entry (Some (File c)) x ch)) t) as ->.
  { destruct (ch !! x) as [[c'|ch']|]; congruence. }
  clear H. split; [destruct par; discriminate|]. split; [|split].
  - unfold view.
    rewrite <- (app_nil_r par) at 2.
    rewrite (stat_graft_below _ _ _ _ _ Hpar). reflexivity.
  - rewrite (graft_view_at _ _ _ _ _ [] Hpar). reflexivity.
  - intros q Hq. apply (graft_view_frame _ _ _ _ _ _ Hpar Hq).
Qed.

Lemma os_write_ok (p : list string) (c : string) (t : node) :
  p <> [] -> view t (parent p) = Some SDir -> view t p <> Some SDir ->
  exists t', os_write p c t = inr t'.
Proof.
  destruct (snoc_cases p) as [->|(par & x & ->)]; [congruence|].
  rewrite os_write_snoc, parent_snoc. intros _ Hpar Hp.
  apply view_dir in Hpar as [ch Hpar]. rewrite Hpar.
  unfold view in Hp. rewrite (stat_snoc _ _ _ _ Hpar) in Hp.
  destruct (ch !! x) as [[c'|ch']|]; eauto. congruence.
Qed.


(** ** [create_file] and [read_file] *)

Ltac unfold_op :=
  unfold try_except, bind, validate, lift, gets, ret, raise,
    write_text, unlink, syscall.

(** An existing target, file or directory alike, is reported as existing and
    nothing is written. *)
Lemma create_file_existing (self : AssistantFnc) (p c : string)
    (full : list string) (t : node) :
  _validate_path self p = inr full ->
  is_dir t (parent full) = true ->
  exists_ t full = true ->
  create_file self p c t = (Ok ("File " +:+ p +:+ " already exists"), t).
Proof.
  intros Hv Hpar Hex. unfold create_file. unfold_op.
  rewrite Hv, (Path_mkdir_existing _ _ Hpar), Hex. reflexivity.
Qed.

Lemma create_file_created (self : AssistantFnc) (p c : string) (t t1 : node) :
  create_file self p c t = (Ok ("Created " +:+ p), t1) ->
  exists full t0,
    _validate_path self p = inr full
    /\ Path_mkdir (parent full) true true t = (Ok tt, t0)
    /\ exists_ t0 full = false
    /\ os_write full c t0 = inr t1.
Proof.
  unfold create_file. unfold_op.
  destruct (_validate_path self p) as [e|full] eqn:Hv; [discriminate|].
  destruct (Path_mkdir (parent full) true true t) as [[[]|e] t0] eqn:Hm;
    [|discriminate].
  destruct (exists_ t0 full) eqn:Hex; [discriminate|].
  destruct (os_write full c t0) as [e|t'] eqn:Hw; [discriminate|].
  intros [= <-]. exists full, t0. repeat split; assumption.
Qed.

Lemma read_file_content (self : AssistantFnc) (p c : string)
    (full : list string) (t : node) :
  _validate_path self p = inr full ->
  view t full = Some (SFile c) ->
  read_file self p t
  = (Ok ("Contents of " +:+ p +:+ ":" +:+ nl +:+ Str.universal_newlines c), t).
Proof.
  intros Hv Hf.
  assert (exists_ t full = true) as Hex by (rewrite exists_view, Hf; reflexivity).
  assert (is_file t full = true) as Hfile
      by (rewrite is_file_view, Hf; reflexivity).
  apply view_file in Hf.
  unfold read_file, read_text. unfold_op.
  rewrite Hv. cbv beta iota. rewrite Hex. cbn [negb]. cbv beta iota.
  rewrite Hfile. cbn [negb]. cbv beta iota. rewrite Hf. reflexivity.
Qed.

Lemma read_file_missing (self : AssistantFnc) (p : string)
    (full : list string) (t : node) :
  _validate_path self p = inr full ->
  view t full = None ->
  read_file self p t = (Ok ("File " +:+ p +:+ " not found."), t).
Proof.
  intros Hv Hf.
  assert (exists_ t full = false) as Hex by (rewrite exists_view, Hf; reflexivity).
  unfold read_file. unfold_op.
  rewrite Hv. cbv beta iota. rewrite Hex. reflexivity.
Qed.

Lemma universal_newlines_id (c : string) :
  Str.contains "013" c = false -> Str.universal_newlines c = c.
Proof.
  induction c as [|a c IH]; simpl; [reflexivity|].
  destruct (Ascii.eqb a "013"); [discriminate|].
  intros H. rewrite (IH H). reflexivity.
Qed.

Lemma prefixes_spec (p q : list string) :
  is_relative_to p q = true -> In q (prefixes p).
Proof.
  revert q. induction p as [|x p IH]; intros q; destruct q as [|y q].
  - left. reflexivity.
  - discriminate.
  - left. reflexivity.
  - simpl. rewrite andb_true_iff, String.eqb_eq. intros [-> Hq].
    right. apply in_map, IH, Hq.
Qed.

Lemma no_file_on_spec (t : node) (p q : list string) :
  no_file_on t p = true -> is_relative_to p q = true -> is_file t q = false.
Proof.
  unfold no_file_on. rewrite forallb_forall. intros H Hq.
  apply negb_true_iff, H, prefixes_spec, Hq.
Qed.




(** C6. After a successful [create_file], a second [create_file] on the same
    path reports that the file exists and leaves the filesystem, and so the
    content written first, as it is. *)
Theorem create_file_twice (self : AssistantFnc) (p c1 c2 : string)
    (t t1 : node) :
  create_file self p c1 t = (Ok ("Created " +:+ p), t1) ->
  create_file self p c2 t1 = (Ok ("File " +:+ p +:+ " already exists"), t1)
  /\ exists full, _validate_path self p = inr full
                  /\ stat t1 full = inr (File c1).
Proof.
  intros H. apply create_file_created in H as (full & t0 & Hv & _ & _ & Hw).
  apply os_write_inv in Hw as (Hne & Hpar & Hfile & _).
  split.
  - apply (create_file_existing _ _ _ _ _ Hv).
    + rewrite is_dir_view, Hpar. reflexivity.
    + rewrite exists_view, Hfile. reflexivity.
  - exists full. split; [exact Hv|]. apply view_file, Hfile.
Qed.

Lemma create_file_twice_witness :
  create_file demo_store "todo.txt" "one" demo_fs
  = (Ok "Created todo.txt", (create_file demo_store "todo.txt" "one" demo_fs).2)
  /\ create_file demo_store "todo.txt" "two"
       (create_file demo_store "todo.txt" "one" demo_fs).2
     = (Ok "File todo.txt already exists",
        (create_file demo_store "todo.txt" "one" demo_fs).2).
Proof.
  split; [vm_compute; reflexivity|].
  apply (create_file_twice demo_store "todo.txt" "one" "two" demo_fs).
  vm_compute; reflexivity.
Defined.

(** C7, as stated, fails twice. A target below a regular file does not exist,
    yet cannot be created: [create_file] reports an error and [read_file]
    finds nothing.  And text with a carriage return is not read back as
    written. *)
Lemma create_then_read_counterexample :
  _validate_path demo_store "notes.txt/x"
  = inr ["srv"; "scratchpad"; "notes.txt"; "x"]
  /\ exists_ demo_fs ["srv"; "scratchpad"; "notes.txt"; "x"] = false
  /\ create_file demo_store "notes.txt/x" "text" demo_fs
     = (Ok "Error creating notes.txt/x: [Errno 17] File exists: '/srv/scratchpad/notes.txt'",
        demo_fs)
  /\ read_file demo_store "notes.txt/x" demo_fs
     = (Ok "File notes.txt/x not found.", demo_fs)
  /\ (create_file demo_store "cr.txt" (String "a" (String "013" "b")) demo_fs).1
     = Ok "Created cr.txt"
  /\ (read_file demo_store "cr.txt"
        (create_file demo_store "cr.txt" (String "a" (String "013" "b"))
           demo_fs).2).1
     = Ok ("Contents of cr.txt:" +:+ nl +:+ String "a" (String "010" "b")).
Proof. repeat split; vm_compute; reflexivity. Qed.

(** C7, amended. When the target does not exist, no regular file lies on
    the way to it and its path is within the limits of the system (names of
    at most 255 bytes, fewer than 4096 bytes in all, at most 100 names),
    [create_file] succeeds and [read_file] then returns the path line
    followed by the content as text mode reads it: carriage-return line ends
    become newlines, so the content itself when it has no carriage
    return. *)
Theorem create_then_read (self : AssistantFnc) (p c : string)
    (full : list string) (t : node) :
  _validate_path self p = inr full ->
  exists_ t full = false ->
  no_file_on t (parent full) = true ->
  within_limits full = true ->
  exists t1,
    create_file self p c t = (Ok ("Created " +:+ p), t1)
    /\ read_file self p t1
       = (Ok ("Contents of " +:+ p +:+ ":" +:+ nl
              +:+ Str.universal_newlines c), t1)
    /\ (Str.contains "013" c = false ->
        read_file self p t1
        = (Ok ("Contents of " +:+ p +:+ ":" +:+ nl +:+ c), t1)).
Proof.
  intros Hv Hex Hway _.
  destruct (Path_mkdir_parents (parent full) t
              (fun q => no_file_on_spec _ _ q Hway)) as (t0 & Hmk & Hview0).
  destruct (snoc_cases full) as [->|(par & x & ->)]; [discriminate|].
  rewrite parent_snoc in *.
  assert (view t0 (par ++ [x]) = None) as Hnone.
  { rewrite Hview0, is_relative_to_snoc_self.
    rewrite exists_view in Hex. destruct (view t (par ++ [x])); congruence. }
  destruct (os_write_ok (par ++ [x]) c t0) as [t1 Hw].
  { destruct par; discriminate. }
  { rewrite parent_snoc, Hview0, is_relative_to_refl. reflexivity. }
  { congruence. }
  exists t1.
  assert (create_file self p c t = (Ok ("Created " +:+ p), t1)) as Hcreate.
  { unfold create_file. unfold_op. rewrite Hv. cbv beta iota.
    rewrite parent_snoc, Hmk. cbv beta iota.
    rewrite exists_view, Hnone. cbv beta iota. rewrite Hw. reflexivity. }
  apply os_write_inv in Hw as (_ & _ & Hfile & _).
  pose proof (read_file_content _ _ _ _ _ Hv Hfile) as Hread.
  split; [exact Hcreate|]. split; [exact Hread|].
  intros Hcr. rewrite (universal_newlines_id _ Hcr) in Hread. exact Hread.
Qed.

Lemma create_then_read_witness :
  _validate_path demo_store "docs/new/deep.txt"
  = inr ["srv"; "scratchpad"; "docs"; "new"; "deep.txt"]
  /\ exists_ demo_fs ["srv"; "scratchpad"; "docs"; "new"; "deep.txt"] = false
  /\ no_file_on demo_fs ["srv"; "scratchpad"; "docs"; "new"] = true
  /\ within_limits ["srv"; "scratchpad"; "docs"; "new"; "deep.txt"] = true
  /\ exists t1,
      create_file demo_store "docs/new/deep.txt" "hello" demo_fs
      = (Ok "Created docs/new/deep.txt", t1)
      /\ read_file demo_store "docs/new/deep.txt" t1
         = (Ok ("Contents of docs/new/deep.txt:" +:+ nl +:+ "hello"), t1).
Proof.
  split; [reflexivity|]. split; [reflexivity|]. split; [reflexivity|].
  split; [reflexivity|].
  destruct (create_then_read demo_store "docs/new/deep.txt" "hello"
              ["srv"; "scratchpad"; "docs"; "new"; "deep.txt"] demo_fs
              eq_refl eq_refl eq_refl eq_refl) as (t1 & Hc & _ & Hr).
  exists t1. split; [exact Hc|]. apply Hr. reflexivity.
Defined.

(** ** Renaming *)

Lemma view_below_file (t : node) (p r : list string) (c : string) (s : shape) :
  view t p = Some (SFile c) -> view t (p ++ r) = Some s -> r = [].
Proof.
  intros Hp Hr. destruct r as [|z r]; [reflexivity|].
  rewrite (view_app_Some _ _ _ _ Hr) in Hp; [discriminate|discriminate].
Qed.






(** * Further properties of the operations *)

(** ** Where the system calls write *)

Lemma is_relative_to_trans (q p base : list string) :
  is_relative_to q p = true -> is_relative_to p base = true ->
  is_relative_to q base = true.
Proof.
  rewrite !is_relative_to_spec. intros [r ->] [r' ->].
  exists (r' ++ r). rewrite app_assoc. reflexivity.
Qed.

(** Two prefixes of one path are comparable. *)
Lemma prefixes_comparable (p q base : list string) :
  is_relative_to p q = true -> is_relative_to p base = true ->
  is_relative_to q base = true \/ is_relative_to base q = true.
Proof.
  rewrite !is_relative_to_spec. intros [r ->] [r' Hb].
  revert base Hb. induction q as [|x q IH]; intros base Hb.
  - right. exists base. reflexivity.
  - destruct base as [|y base].
    + left. exists (x :: q). reflexivity.
    + simpl in Hb. injection Hb as <- Hb.
      destruct (IH base Hb) as [[s ->]|[s ->]].
      * left. exists s. reflexivity.
      * right. exists s. reflexivity.
Qed.

Lemma outside_not_below (q p base : list string) :
  is_relative_to p base = true -> is_relative_to q base = false ->
  is_relative_to q p = false.
Proof.
  intros Hp Hq. destruct (is_relative_to q p) eqn:H; [|reflexivity].
  rewrite (is_relative_to_trans _ _ _ H Hp) in Hq. discriminate.
Qed.

Lemma modify_frame f (p : list string) (t t' : node) (q : list string) :
  modify f p t = inr t' -> is_relative_to q p = false ->
  view t' q = view t q.
Proof.
  intros H Hq. apply modify_inv in H as (par & x & ch & o & -> & Hpar & _ & ->).
  apply (graft_view_frame _ _ _ _ _ _ Hpar Hq).
Qed.

Lemma os_mkdir_inv (p : list string) (t t' : node) :
  os_mkdir p t = inr t' ->
  view t p = None /\ view t (parent p) = Some SDir
  /\ forall q, view t' q = if bool_decide (q = p) then Some SDir else view t q.
Proof.
  intros H. destruct (snoc_cases p) as [->|(par & x & ->)]; [discriminate|].
  assert (view t (par ++ [x]) = None /\ view t par = Some SDir) as [Hp Hpar].
  { rewrite os_mkdir_snoc in H. unfold view. rewrite stat_app.
    destruct (stat t par) as [e|[c|ch]]; try discriminate. simpl.
    destruct (ch !! x); [discriminate|]. split; reflexivity. }
  rewrite parent_snoc. split; [exact Hp|]. split; [exact Hpar|].
  destruct (os_mkdir_fresh (par ++ [x]) t Hp) as (t'' & Hmk & Hview).
  { rewrite parent_snoc. exact Hpar. }
  rewrite H in Hmk. injection Hmk as <-. exact Hview.
Qed.

Lemma dirs_added_refl (p : list string) (t : node) : dirs_added p t t.
Proof. intros q. left. reflexivity. Qed.

Lemma dirs_added_trans (p1 p2 p : list string) (t t1 t2 : node) :
  dirs_added p1 t t1 -> dirs_added p2 t1 t2 ->
  is_relative_to p p1 = true -> is_relative_to p p2 = true ->
  dirs_added p t t2.
Proof.
  intros H1 H2 Hp1 Hp2 q.
  destruct (H1 q) as [E1|(N1 & D1 & R1)], (H2 q) as [E2|(N2 & D2 & R2)].
  - left. congruence.
  - right. repeat split; [congruence|exact D2|].
    apply (is_relative_to_trans _ _ _ Hp2 R2).
  - right. repeat split; [exact N1|congruence|].
    apply (is_relative_to_trans _ _ _ Hp1 R1).
  - congruence.
Qed.

Lemma os_mkdir_dirs_added (p : list string) (t t' : node) :
  os_mkdir p t = inr t' -> dirs_added p t t'.
Proof.
  intros H. apply os_mkdir_inv in H as (Hp & _ & Hview). intros q.
  rewrite Hview. destruct (decide (q = p)) as [->|Hne].
  - right. rewrite bool_decide_eq_true_2 by reflexivity.
    repeat split; [exact Hp|apply is_relative_to_refl].
  - left. rewrite bool_decide_eq_false_2 by exact Hne. reflexivity.
Qed.

Lemma mkdir_here_dirs_added (p : list string) (ok : bool) (t t' : node)
    (r : result unit) :
  mkdir_here p ok t = (r, t') -> dirs_added p t t'.
Proof.
  unfold mkdir_here. destruct (os_mkdir p t) as [e|t1] eqn:Hmk.
  - destruct e, (ok && is_dir t p); intros [= _ <-]; apply dirs_added_refl.
  - intros [= _ <-]. apply (os_mkdir_dirs_added _ _ _ Hmk).
Qed.

(** [Path.mkdir] changes nothing but missing directories on the way to [p],
    also when it raises. *)
Lemma Path_mkdir_dirs_added (p : list string) (parents ok : bool)
    (t t' : node) (r : result unit) :
  Path_mkdir p parents ok t = (r, t') -> dirs_added p t t'.
Proof.
  unfold Path_mkdir. destruct parents; [|apply mkdir_here_dirs_added].
  rewrite <- (rev_involutive p) at 2. generalize (rev p) as rp. clear p.
  intros rp. revert ok t t' r.
  induction rp as [|x rp IH]; intros ok t t' r; rewrite mkdir_parents_eq.
  - simpl. destruct (ok && is_dir t []); intros [= _ <-]; apply dirs_added_refl.
  - destruct (os_mkdir (rev (x :: rp)) t) as [e|t1] eqn:Hmk.
    + destruct e;
        try (destruct (ok && is_dir t (rev (x :: rp))); intros [= _ <-];
             apply dirs_added_refl).
      destruct (mkdir_parents rp true t) as [[[]|e] t1] eqn:Hrec.
      * intros Hhere.
        apply (dirs_added_trans (rev rp) (rev (x :: rp)) _ t t1 t').
        -- apply (IH _ _ _ _ Hrec).
        -- apply (mkdir_here_dirs_added _ _ _ _ _ Hhere).
        -- simpl. apply is_relative_to_app.
        -- apply is_relative_to_refl.
      * intros [= _ <-]. intros q.
        destruct (IH _ _ _ _ Hrec q) as [E|(N & D & R)]; [left; exact E|].
        right. repeat split; try assumption.
        simpl. apply (is_relative_to_trans _ _ _ (is_relative_to_app _ _) R).
    + intros [= _ <-]. apply (os_mkdir_dirs_added _ _ _ Hmk).
Qed.

(** ** Computations that keep to a directory *)

Lemma outside_kept_refl (base : list string) (t : node) : outside_kept base t t.
Proof. intros q _. left. reflexivity. Qed.

Lemma outside_kept_trans (base : list string) (t t1 t2 : node) :
  outside_kept base t t1 -> outside_kept base t1 t2 -> outside_kept base t t2.
Proof.
  intros H1 H2 q Hq.
  destruct (H1 q Hq) as [E1|(N1 & D1 & R1)], (H2 q Hq) as [E2|(N2 & D2 & R2)].
  - left. congruence.
  - right. repeat split; [congruence|exact D2|exact R2].
  - right. repeat split; [exact N1|congruence|exact R1].
  - congruence.
Qed.

Lemma dirs_added_outside (p base : list string) (t t' : node) :
  dirs_added p t t' ->
  is_relative_to p base = true \/ is_relative_to base p = true ->
  outside_kept base t t'.
Proof.
  intros H Hp q Hq. destruct (H q) as [E|(N & D & R)]; [left; exact E|].
  right. repeat split; try assumption.
  destruct Hp as [Hp|Hp].
  - destruct (prefixes_comparable _ _ _ R Hp) as [Hin|Hup]; [congruence|exact Hup].
  - apply (is_relative_to_trans _ _ _ Hp R).
Qed.

Lemma frame_outside (p base : list string) (t t' : node) :
  (forall q, is_relative_to q p = false -> view t' q = view t q) ->
  is_relative_to p base = true ->
  outside_kept base t t'.
Proof.
  intros H Hp q Hq. left. apply H, (outside_not_below _ _ _ Hp Hq).
Qed.

Lemma confined_ret {A} (base : list string) (a : A) : confined base (ret a).
Proof. intros t r t' [= _ <-]. apply outside_kept_refl. Qed.

Lemma confined_raise {A} (base : list string) (e : exn) :
  confined base (raise e : M A).
Proof. intros t r t' [= _ <-]. apply outside_kept_refl. Qed.

Lemma confined_gets {A} (base : list string) (f : node -> A) :
  confined base (gets f).
Proof. intros t r t' [= _ <-]. apply outside_kept_refl. Qed.

Lemma confined_bind {A B} (base : list string) (m : M A) (k : A -> M B) :
  confined base m -> (forall a, confined base (k a)) ->
  confined base (bind m k).
Proof.
  intros Hm Hk t r t'. unfold bind.
  destruct (m t) as [[a|e] t1] eqn:E.
  - intros H. apply (outside_kept_trans _ _ t1); [apply (Hm _ _ _ E)|].
    apply (Hk a _ _ _ H).
  - intros [= _ <-]. apply (Hm _ _ _ E).
Qed.

Lemma confined_try_except {A} (base : list string) (body : M A)
    (handler : exn -> M A) :
  confined base body -> (forall e, confined base (handler e)) ->
  confined base (try_except body handler).
Proof.
  intros Hb Hh t r t'. unfold try_except.
  destruct (body t) as [[a|e] t1] eqn:E.
  - intros [= _ <-]. apply (Hb _ _ _ E).
  - intros H. apply (outside_kept_trans _ _ t1); [apply (Hb _ _ _ E)|].
    apply (Hh e _ _ _ H).
Qed.

Lemma confined_if {A} (base : list string) (b : bool) (m1 m2 : M A) :
  confined base m1 -> confined base m2 ->
  confined base (if b then m1 else m2).
Proof. destruct b; auto. Qed.

Lemma confined_syscall (base p : list string) (call : node -> errno + node) :
  (forall t t', call t = inr t' -> outside_kept base t t') ->
  confined base (syscall call p).
Proof.
  intros H t r t'. unfold syscall. destruct (call t) as [e|t1] eqn:E.
  - intros [= _ <-]. apply outside_kept_refl.
  - intros [= _ <-]. apply (H _ _ E).
Qed.

Lemma confined_modify (base p : list string) f :
  is_relative_to p base = true -> confined base (syscall (modify f p) p).
Proof.
  intros Hp. apply confined_syscall. intros t t' H.
  apply (frame_outside p); [|exact Hp].
  intros q Hq. apply (modify_frame _ _ _ _ _ H Hq).
Qed.

Lemma confined_Path_mkdir (base p : list string) (parents ok : bool) :
  is_relative_to p base = true \/ is_relative_to base p = true ->
  confined base (Path_mkdir p parents ok).
Proof.
  intros Hp t r t' H.
  apply (dirs_added_outside p); [|exact Hp].
  apply (Path_mkdir_dirs_added _ _ _ _ _ _ H).
Qed.

Lemma os_write_frame (p : list string) (c : string) (t t' : node)
    (q : list string) :
  os_write p c t = inr t' -> is_relative_to q p = false ->
  view t' q = view t q.
Proof. intros H. apply os_write_inv in H as (_ & _ & _ & H). apply H. Qed.

Lemma confined_write_text (base p : list string) (c : string) :
  is_relative_to p base = true -> confined base (write_text p c).
Proof.
  intros Hp. apply confined_syscall. intros t t' H.
  apply (frame_outside p); [|exact Hp].
  intros q. apply (os_write_frame _ _ _ _ _ H).
Qed.

Lemma os_unlink_frame (p : list string) (t t' : node) (q : list string) :
  os_unlink p t = inr t' -> is_relative_to q p = false ->
  view t' q = view t q.
Proof.
  unfold os_unlink. destruct p; [discriminate|]. apply modify_frame.
Qed.

Lemma confined_unlink (base p : list string) :
  is_relative_to p base = true -> confined base (unlink p).
Proof.
  intros Hp. apply confined_syscall. intros t t' H.
  apply (frame_outside p); [|exact Hp].
  intros q. apply (os_unlink_frame _ _ _ _ H).
Qed.

Lemma inside_root (base : list string) :
  is_relative_to [] base = true -> base = [].
Proof. destruct base; [reflexivity|discriminate]. Qed.

Lemma confined_rmtree (base p : list string) :
  is_relative_to p base = true -> confined base (rmtree p).
Proof.
  intros Hp. destruct p as [|x p].
  - apply inside_root in Hp as ->. intros t r t' _ q Hq.
    destruct q; discriminate.
  - apply (confined_modify base (x :: p)), Hp.
Qed.

Lemma os_rename_frame (src dst : list string) (t t' : node) (q : list string) :
  os_rename src dst t = inr t' ->
  is_relative_to q src = false -> is_relative_to q dst = false ->
  view t' q = view t q.
Proof.
  unfold os_rename. destruct (stat t src) as [e|n]; [discriminate|].
  destruct (bool_decide (src = dst)); [intros [= <-]; reflexivity|].
  destruct (bool_decide (src = []) || bool_decide (dst = [])); [discriminate|].
  match goal with |- context [if ?b then _ else _] => destruct b end;
    [discriminate|].
  match goal with |- context [modify ?f dst t] =>
    destruct (modify f dst t) as [e|t1] eqn:H1 end; [discriminate|].
  intros H2 Hs Hd.
  rewrite (modify_frame _ _ _ _ _ H2 Hs). apply (modify_frame _ _ _ _ _ H1 Hd).
Qed.

Lemma confined_os_rename (base src dst : list string) :
  is_relative_to src base = true -> is_relative_to dst base = true ->
  forall t t', os_rename src dst t = inr t' -> outside_kept base t t'.
Proof.
  intros Hs Hd t t' H q Hq. left.
  apply (os_rename_frame _ _ _ _ _ H);
    [apply (outside_not_below _ _ _ Hs Hq)|apply (outside_not_below _ _ _ Hd Hq)].
Qed.

Lemma confined_copytree_fallback (base src real_dst : list string) :
  is_relative_to src base = true -> is_relative_to real_dst base = true ->
  confined base (copytree_fallback src real_dst).
Proof.
  intros Hs Hr. unfold copytree_fallback.
  apply confined_bind; [apply confined_gets|].
  intros [e'|n]; [apply confined_raise|].
  apply confined_bind.
  { apply (confined_Path_mkdir base real_dst true false). left. exact Hr. }
  intros _. apply confined_bind; [apply confined_modify, Hr|].
  intros _. apply confined_rmtree, Hs.
Qed.

Lemma confined_copy2_fallback (base src real_dst : list string) :
  is_relative_to src base = true -> is_relative_to real_dst base = true ->
  confined base (copy2_fallback src real_dst).
Proof.
  intros Hs Hr. unfold copy2_fallback.
  apply confined_bind; [apply confined_gets|].
  intros [e'|[c|ch]]; try apply confined_raise.
  apply confined_bind; [apply confined_write_text, Hr|].
  intros _. apply confined_unlink, Hs.
Qed.

Lemma confined_shutil_move (base src dst : list string) :
  is_relative_to src base = true -> is_relative_to dst base = true ->
  confined base (shutil_move src dst).
Proof.
  intros Hs Hd.
  assert (forall real_dst, is_relative_to real_dst base = true ->
            confined base (fun t =>
              match os_rename src real_dst t with
              | inr t' => (Ok tt, t')
              | inl _ =>
                  if is_dir t src then
                    if is_relative_to dst src then
                      (Raise (ShutilError
                                ("Cannot move a directory '" +:+ str_abs src
                                 +:+ "' into itself '" +:+ str_abs dst
                                 +:+ "'.")), t)
                    else copytree_fallback src real_dst t
                  else copy2_fallback src real_dst t
              end)) as Hmove.
  { intros real_dst Hr t r t'.
    destruct (os_rename src real_dst t) as [e|t1] eqn:E.
    - destruct (is_dir t src); [destruct (is_relative_to dst src)|].
      + intros [= _ <-]. apply outside_kept_refl.
      + apply (confined_copytree_fallback _ _ _ Hs Hr).
      + apply (confined_copy2_fallback _ _ _ Hs Hr).
    - intros [= _ <-]. apply (confined_os_rename _ _ _ Hs Hr _ _ E). }
  unfold shutil_move. apply confined_bind; [apply confined_gets|].
  intros d. destruct d; [|apply Hmove, Hd].
  destruct (bool_decide (src = dst)).
  - apply confined_syscall, (confined_os_rename _ _ _ Hs Hd).
  - apply confined_bind; [apply confined_gets|]. intros e.
    destruct e; [apply confined_raise|]. apply Hmove.
    apply (is_relative_to_trans _ dst); [apply is_relative_to_app|exact Hd].
Qed.

(** ** No operation leaves the scratch directory *)

(** A validated path is the resolved scratch directory or lies below it. *)
Lemma validate_inside (self : AssistantFnc) (p : string)
    (full base : list string) :
  resolve (scratch_dir self) = inr base ->
  _validate_path self p = inr full ->
  is_relative_to full base = true.
Proof.
  intros Hbase. unfold _validate_path. rewrite Hbase.
  destruct (parts (Path (Str.strip p))); [discriminate|].
  destruct (resolve (joinpath (scratch_dir self) (Path (Str.strip p))))
    as [e|full']; [discriminate|].
  destruct (is_relative_to full' base) eqn:H; [|discriminate].
  intros [= <-]. exact H.
Qed.

Lemma parent_comparable (full base : list string) :
  is_relative_to full base = true ->
  is_relative_to (parent full) base = true
  \/ is_relative_to base (parent full) = true.
Proof.
  intros H. apply is_relative_to_spec in H as [r ->].
  destruct (snoc_cases r) as [->|(r' & x & ->)].
  - right. rewrite app_nil_r.
    destruct (snoc_cases base) as [->|(b & y & ->)]; [reflexivity|].
    rewrite parent_snoc. apply is_relative_to_app.
  - left. rewrite app_assoc, parent_snoc. apply is_relative_to_app.
Qed.

Lemma confined_validate {A} (self : AssistantFnc) (p : string)
    (base : list string) (k : list string -> M A) :
  (forall full, _validate_path self p = inr full -> confined base (k full)) ->
  confined base (bind (validate self p) k).
Proof.
  intros H. unfold validate.
  destruct (_validate_path self p) as [e|full] eqn:Hv.
  - intros t r t' [= _ <-]. apply outside_kept_refl.
  - apply (H full eq_refl).
Qed.

(** X1. Every operation that changes the filesystem keeps to the scratch
    directory: outside of it nothing is created, changed or removed, except
    that [mkdir] may create missing parents of the scratch directory
    itself.  This holds for every argument and every outcome, failures
    included. *)
Theorem operations_confined (self : AssistantFnc) (base : list string) :
  resolve (scratch_dir self) = inr base ->
  (forall p c, confined base (create_file self p c))
  /\ (forall p c, confined base (update_file self p c))
  /\ (forall p, confined base (delete_file self p))
  /\ (forall p b, confined base (create_folder self p b))
  /\ (forall p, confined base (delete_folder self p))
  /\ (forall p q, confined base (rename_file self p q)).
Proof.
  intros Hbase.
  pose proof (validate_inside self) as Hin.
  repeat split; intros;
    (apply confined_try_except; [|intros; apply confined_ret]);
    apply confined_validate; intros full Hv;
    pose proof (Hin _ _ _ Hbase Hv) as Hfull.
  - apply confined_bind;
      [apply confined_Path_mkdir, parent_comparable, Hfull|intros _].
    apply confined_bind; [apply confined_gets|intros e].
    destruct e; [apply confined_ret|].
    apply confined_bind; [apply confined_write_text, Hfull|intros _].
    apply confined_ret.
  - apply confined_bind; [apply confined_gets|intros e].
    destruct (negb e); [apply confined_ret|].
    apply confined_bind; [apply confined_gets|intros f].
    destruct (negb f); [apply confined_ret|].
    apply confined_bind; [apply confined_write_text, Hfull|intros _].
    apply confined_ret.
  - apply confined_bind; [apply confined_gets|intros e].
    destruct (negb e); [apply confined_ret|].
    apply confined_bind; [apply confined_gets|intros f].
    destruct (negb f); [apply confined_ret|].
    apply confined_bind; [apply confined_unlink, Hfull|intros _].
    apply confined_ret.
  - apply confined_bind; [apply confined_gets|intros e].
    destruct e.
    + apply confined_bind; [apply confined_gets|intros f].
      destruct f; [apply confined_ret|].
      destruct (negb b); [apply confined_ret|].
      apply confined_bind; [apply confined_rmtree, Hfull|intros _].
      apply confined_bind; [apply confined_Path_mkdir; left; exact Hfull|intros _].
      apply confined_ret.
    + apply confined_bind; [apply confined_Path_mkdir; left; exact Hfull|intros _].
      apply confined_ret.
  - apply confined_bind; [apply confined_gets|intros e].
    destruct (negb e); [apply confined_ret|].
    apply confined_bind; [apply confined_gets|intros d].
    destruct (negb d); [apply confined_ret|].
    apply confined_bind; [apply confined_rmtree, Hfull|intros _].
    apply confined_ret.
  - apply confined_validate; intros dest Hv'.
    pose proof (Hin _ _ _ Hbase Hv') as Hdest.
    apply confined_bind; [apply confined_gets|intros e].
    destruct (negb e); [apply confined_ret|].
    apply confined_bind; [apply confined_gets|intros e'].
    destruct e'; [apply confined_ret|].
    apply confined_bind;
      [apply confined_Path_mkdir, parent_comparable, Hdest|intros _].
    apply confined_bind; [apply confined_shutil_move; assumption|intros _].
    apply confined_ret.
Qed.

Lemma operations_confined_witness :
  resolve (scratch_dir demo_store) = inr ["srv"; "scratchpad"]
  /\ outside_kept ["srv"; "scratchpad"] demo_fs
       (delete_folder demo_store "docs/.." demo_fs).2
  /\ outside_kept ["srv"; "scratchpad"] demo_fs
       (rename_file demo_store "docs" "../../etc/docs" demo_fs).2.
Proof.
  destruct (operations_confined demo_store ["srv"; "scratchpad"] eq_refl)
    as (_ & _ & _ & _ & Hdel & Hren).
  split; [reflexivity|]. split.
  - apply (Hdel "docs/.." demo_fs _ _ (surjective_pairing _)).
  - apply (Hren "docs" "../../etc/docs" demo_fs _ _ (surjective_pairing _)).
Defined.

(** ** Operations that only read *)

Lemma readonly_ret {A} (a : A) : readonly (ret a).
Proof. intros t r t' [= _ <-]. reflexivity. Qed.

Lemma readonly_raise {A} (e : exn) : readonly (raise e : M A).
Proof. intros t r t' [= _ <-]. reflexivity. Qed.

Lemma readonly_gets {A} (f : node -> A) : readonly (gets f).
Proof. intros t r t' [= _ <-]. reflexivity. Qed.

Lemma readonly_bind {A B} (m : M A) (k : A -> M B) :
  readonly m -> (forall a, readonly (k a)) -> readonly (bind m k).
Proof.
  intros Hm Hk t r t'. unfold bind. destruct (m t) as [[a|e] t1] eqn:E.
  - intros H. apply Hk in H. rewrite H. apply (Hm _ _ _ E).
  - intros [= _ <-]. apply (Hm _ _ _ E).
Qed.

Lemma readonly_try_except {A} (body : M A) (handler : exn -> M A) :
  readonly body -> (forall e, readonly (handler e)) ->
  readonly (try_except body handler).
Proof.
  intros Hb Hh t r t'. unfold try_except.
  destruct (body t) as [[a|e] t1] eqn:E.
  - intros [= _ <-]. apply (Hb _ _ _ E).
  - intros H. apply Hh in H. rewrite H. apply (Hb _ _ _ E).
Qed.

Lemma readonly_for_each {A B} (l : list A) (step : A -> B -> M B) (acc : B) :
  (forall x b, readonly (step x b)) -> readonly (for_each l step acc).
Proof.
  intros Hs. revert acc. induction l as [|x l IH]; intros acc; simpl.
  - apply readonly_ret.
  - apply readonly_bind; [apply Hs|apply IH].
Qed.

Lemma readonly_read_text (p : list string) : readonly (read_text p).
Proof.
  intros t r t'. unfold read_text.
  destruct (stat t p) as [e|[c|ch]]; intros [= _ <-]; reflexivity.
Qed.

Ltac read_only :=
  repeat first
    [ apply readonly_ret | apply readonly_raise | apply readonly_gets
    | apply readonly_read_text
    | apply readonly_try_except; [|intros ?]
    | apply readonly_for_each; intros ? ?
    | apply readonly_bind; [|intros ?]
    | match goal with
      | |- readonly (if ?b then _ else _) => destruct b
      | |- readonly (match ?o with Some _ => _ | None => _ end) => destruct o
      | |- readonly (lift ?r) => destruct r
      end ].

(** X2. The three listings, [read_file] and [get_time] never change the
    filesystem, whatever they find and whether they fail or not. *)
Theorem readers_change_nothing (self : AssistantFnc) :
  readonly (list_files self)
  /\ readonly (list_files_with_extensions self)
  /\ readonly (list_all self)
  /\ (forall p, readonly (read_file self p))
  /\ (forall now, readonly (get_time now)).
Proof.
  repeat split; intros.
  - unfold list_files, value_error. read_only.
  - unfold list_files_with_extensions, value_error. read_only.
  - unfold list_all, list_all_items, list_all_first, list_all_second,
      value_error. read_only.
  - unfold read_file, validate. read_only.
  - apply readonly_ret.
Qed.

(** ** [update_file] and [delete_file] *)








(** ** Targets that are missing or of the wrong kind *)

(** X9. On a valid path within the limits of the system with nothing at it,
    the operations that need a target say that it is not found, each in its
    own words, and change nothing; none of them creates it. *)
Theorem missing_target_reported (self : AssistantFnc) (p : string)
    (full : list string) (t : node) :
  _validate_path self p = inr full ->
  exists_ t full = false ->
  within_limits full = true ->
  read_file self p t = (Ok ("File " +:+ p +:+ " not found."), t)
  /\ (forall c, update_file self p c t = (Ok ("File " +:+ p +:+ " not found"), t))
  /\ delete_file self p t = (Ok ("File " +:+ p +:+ " not found"), t)
  /\ delete_folder self p t = (Ok ("Folder " +:+ p +:+ " not found"), t).
Proof.
  intros Hv Hex _. repeat split; intros.
  - unfold read_file. unfold_op. rewrite Hv. cbv beta iota. rewrite Hex.
    reflexivity.
  - unfold update_file. unfold_op. rewrite Hv. cbv beta iota. rewrite Hex.
    reflexivity.
  - unfold delete_file. unfold_op. rewrite Hv. cbv beta iota. rewrite Hex.
    reflexivity.
  - unfold delete_folder. unfold_op. rewrite Hv. cbv beta iota. rewrite Hex.
    reflexivity.
Qed.

Lemma missing_target_reported_witness :
  _validate_path demo_store "ghost.txt" = inr ["srv"; "scratchpad"; "ghost.txt"]
  /\ exists_ demo_fs ["srv"; "scratchpad"; "ghost.txt"] = false
  /\ within_limits ["srv"; "scratchpad"; "ghost.txt"] = true
  /\ update_file demo_store "ghost.txt" "boo" demo_fs
     = (Ok "File ghost.txt not found", demo_fs).
Proof.
  split; [reflexivity|]. split; [reflexivity|]. split; [reflexivity|].
  apply (missing_target_reported demo_store "ghost.txt"
           ["srv"; "scratchpad"; "ghost.txt"] demo_fs eq_refl eq_refl
           eq_refl).
Defined.



(** ** [create_folder] and [delete_folder] *)

(** [mkdir(parents=True)] of a missing path with no file in the way succeeds
    whatever [exist_ok] is. *)
Lemma Path_mkdir_fresh (p : list string) (ok : bool) (t : node) :
  view t p = None ->
  no_file_on t p = true ->
  exists t', Path_mkdir p true ok t = (Ok tt, t')
    /\ forall q, view t' q
                 = if is_relative_to p q then Some SDir else view t q.
Proof.
  intros Hp Hway.
  destruct (snoc_cases p) as [->|(par & x & ->)].
  { unfold view in Hp. simpl in Hp. destruct t; discriminate. }
  assert (forall q, is_relative_to par q = true -> is_file t q = false)
    as Hfiles.
  { intros q Hq. apply (no_file_on_spec _ _ _ Hway).
    rewrite is_relative_to_snoc, Hq. apply orb_true_r. }
  destruct (Path_mkdir_parents par t Hfiles) as (t1 & Hrec & Hview1).
  assert (view t1 (par ++ [x]) = None) as Hp1
      by (rewrite Hview1, is_relative_to_snoc_self; exact Hp).
  destruct (os_mkdir_fresh (par ++ [x]) t1 Hp1) as (t' & Hmk & Hview).
  { rewrite parent_snoc, Hview1, is_relative_to_refl. reflexivity. }
  assert (forall q, view t' q
            = if is_relative_to (par ++ [x]) q then Some SDir else view t q)
    as Hall.
  { intros q. rewrite Hview, Hview1, is_relative_to_snoc.
    destruct (bool_decide (q = par ++ [x])); reflexivity. }
  unfold Path_mkdir. rewrite mkdir_parents_eq, rev_involutive.
  destruct (view t par) as [[c|]|] eqn:Hpar.
  - pose proof (Hfiles par (is_relative_to_refl _)) as Hf.
    rewrite is_file_view, Hpar in Hf. discriminate.
  - (* the parent is there: [mkdir_parents] on it changed nothing *)
    assert (t1 = t) as ->.
    { rewrite (Path_mkdir_existing par t) in Hrec
        by (rewrite is_dir_view, Hpar; reflexivity).
      congruence. }
    rewrite Hmk. exists t'. split; [reflexivity|exact Hall].
  - rewrite (os_mkdir_no_parent (par ++ [x]) t).
    2:{ rewrite parent_snoc. exact Hpar. }
    2:{ intros q Hq. apply (no_file_on_spec _ _ _ Hway Hq). }
    unfold Path_mkdir in Hrec.
    rewrite rev_unit, Hrec. unfold mkdir_here. rewrite Hmk.
    exists t'. split; [reflexivity|exact Hall].
Qed.

(** X11. On a free path within the limits of the system, with no regular file
    in the way, [create_folder] makes the folder and every missing folder
    above it; what existed is as it was. *)
Theorem create_folder_creates (self : AssistantFnc) (p : string) (b : bool)
    (full : list string) (t : node) :
  _validate_path self p = inr full ->
  exists_ t full = false ->
  no_file_on t full = true ->
  within_limits full = true ->
  exists t',
    create_folder self p b t = (Ok ("Created folder " +:+ p), t')
    /\ forall q, view t' q
                 = if is_relative_to full q then Some SDir else view t q.
Proof.
  intros Hv Hex Hway _.
  assert (view t full = None) as Hnone.
  { rewrite exists_view in Hex. destruct (view t full); congruence. }
  destruct (Path_mkdir_fresh full false t Hnone Hway) as (t' & Hmk & Hview).
  exists t'. split; [|exact Hview].
  unfold create_folder. unfold_op. rewrite Hv. cbv beta iota.
  rewrite Hex. cbv beta iota. rewrite Hmk. reflexivity.
Qed.

Lemma create_folder_creates_witness :
  _validate_path demo_store "a/b/c" = inr ["srv"; "scratchpad"; "a"; "b"; "c"]
  /\ exists_ demo_fs ["srv"; "scratchpad"; "a"; "b"; "c"] = false
  /\ no_file_on demo_fs ["srv"; "scratchpad"; "a"; "b"; "c"] = true
  /\ within_limits ["srv"; "scratchpad"; "a"; "b"; "c"] = true
  /\ exists t',
      create_folder demo_store "a/b/c" false demo_fs
      = (Ok "Created folder a/b/c", t')
      /\ view t' ["srv"; "scratchpad"; "a"] = Some SDir
      /\ view t' ["srv"; "scratchpad"; "a"; "b"] = Some SDir
      /\ view t' ["srv"; "scratchpad"; "a"; "b"; "c"] = Some SDir
      /\ view t' ["srv"; "scratchpad"; "notes.txt"] = Some (SFile "first").
Proof.
  repeat (split; [reflexivity|]).
  destruct (create_folder_creates demo_store "a/b/c" false
              ["srv"; "scratchpad"; "a"; "b"; "c"] demo_fs
              eq_refl eq_refl eq_refl eq_refl) as (t' & Hc & Hview).
  exists t'. split; [exact Hc|]. rewrite !Hview. repeat split; reflexivity.
Defined.



(** Removing a directory: its parent stays a directory, the path and all
    below it are gone, the rest looks as before. *)
Lemma rmtree_removes (full : list string) (t : node) :
  is_dir t full = true -> full <> [] ->
  exists t',
    rmtree full t = (Ok tt, t')
    /\ (forall r, view t' (full ++ r) = None)
    /\ (forall q, is_relative_to q full = false -> view t' q = view t q).
Proof.
  intros Hd Hne.
  destruct (snoc_cases full) as [->|(par & x & ->)]; [congruence|].
  assert (exists ch, stat t par = inr (Dir ch)
                     /\ exists dch, ch !! x = Some (Dir dch))
    as (ch & Hpar & dch & Hx).
  { unfold is_dir in Hd. rewrite stat_app in Hd.
    destruct (stat t par) as [e|[c|ch]]; try discriminate.
    exists ch. split; [reflexivity|]. simpl in Hd.
    destruct (ch !! x) as [[c|dch]|]; try discriminate. eauto. }
  exists (graft par (Dir (set_entry None x ch)) t). split; [|split].
  - unfold rmtree. destruct (par ++ [x]) eqn:E; [destruct par; discriminate|].
    rewrite <- E. unfold syscall. rewrite modify_snoc, Hpar, Hx. reflexivity.
  - intros r. rewrite <- app_assoc. simpl.
    apply (graft_view_at _ _ None _ _ r Hpar).
  - intros q Hq. apply (graft_view_frame _ _ _ _ _ _ Hpar Hq).
Qed.

(** X13. With [overwrite], [create_folder] on an existing folder that is, with
    all it holds, within the limits of the system leaves an empty folder in
    its place: everything below it is removed, everything else looks as
    before. *)
Theorem create_folder_overwrite_empties (self : AssistantFnc) (p : string)
    (full : list string) (t : node) :
  _validate_path self p = inr full ->
  is_dir t full = true ->
  full <> [] ->
  tree_within_limits t full = true ->
  exists t',
    create_folder self p true t = (Ok ("Created folder " +:+ p), t')
    /\ view t' full = Some SDir
    /\ (forall r, r <> [] -> view t' (full ++ r) = None)
    /\ (forall q, is_relative_to q full = false -> view t' q = view t q).
Proof.
  intros Hv Hd Hne _.
  assert (exists_ t full = true /\ is_file t full = false) as [Hex Hf].
  { unfold is_dir, exists_, is_file in *.
    destruct (stat t full) as [e|[c|ch]]; try discriminate. auto. }
  destruct (rmtree_removes full t Hd Hne) as (t1 & Hrm & Hgone & Hframe1).
  assert (is_relative_to (parent full) full = false) as Hpar.
  { destruct (snoc_cases full) as [->|(par & x & ->)]; [congruence|].
    rewrite parent_snoc. apply is_relative_to_snoc_self. }
  destruct (os_mkdir_fresh full t1) as (t' & Hmk & Hview).
  { rewrite <- (app_nil_r full). apply Hgone. }
  { rewrite (Hframe1 _ Hpar).
    rewrite is_dir_view in Hd.
    destruct (view t full) as [[c|]|] eqn:Hvf; try discriminate.
    destruct (snoc_cases full) as [->|(par & x & ->)]; [congruence|].
    rewrite parent_snoc. apply (view_app_Some _ _ _ _ Hvf). discriminate. }
  exists t'. split; [|split; [|split]].
  - unfold create_folder. unfold_op. rewrite Hv. cbv beta iota. rewrite Hex.
    cbv beta iota. rewrite Hf. cbn [negb]. cbv beta iota. rewrite Hrm.
    cbv beta iota. unfold Path_mkdir.
    rewrite mkdir_parents_eq, rev_involutive, Hmk. reflexivity.
  - rewrite Hview, bool_decide_eq_true_2; reflexivity.
  - intros r Hr. rewrite Hview, bool_decide_eq_false_2; [apply Hgone|].
    intros E. apply (f_equal length) in E. rewrite length_app in E.
    destruct r; [congruence|simpl in E; lia].
  - intros q Hq. rewrite Hview, bool_decide_eq_false_2; [apply Hframe1, Hq|].
    intros ->. rewrite is_relative_to_refl in Hq. discriminate.
Qed.

Lemma create_folder_overwrite_empties_witness :
  _validate_path demo_store "docs" = inr ["srv"; "scratchpad"; "docs"]
  /\ is_dir demo_fs ["srv"; "scratchpad"; "docs"] = true
  /\ tree_within_limits demo_fs ["srv"; "scratchpad"; "docs"] = true
  /\ exists t',
      create_folder demo_store "docs" true demo_fs
      = (Ok "Created folder docs", t')
      /\ view t' ["srv"; "scratchpad"; "docs"] = Some SDir
      /\ view t' ["srv"; "scratchpad"; "docs"; "plan.txt"] = None
      /\ view t' ["srv"; "scratchpad"; "notes.txt"] = Some (SFile "first").
Proof.
  split; [reflexivity|]. split; [reflexivity|]. split; [reflexivity|].
  destruct (create_folder_overwrite_empties demo_store "docs"
              ["srv"; "scratchpad"; "docs"] demo_fs eq_refl eq_refl)
    as (t' & Hc & Hdir & Hbelow & Hframe); [discriminate|reflexivity|].
  exists t'. split; [exact Hc|]. split; [exact Hdir|]. split.
  - apply (Hbelow ["plan.txt"]). discriminate.
  - rewrite Hframe; reflexivity.
Defined.

(** X14. [delete_folder] on a folder that is, with all it holds, within the
    limits of the system removes it with everything below it and nothing
    else; [read_file] on the path then finds nothing. *)
Theorem delete_folder_removes (self : AssistantFnc) (p : string)
    (full : list string) (t : node) :
  _validate_path self p = inr full ->
  is_dir t full = true ->
  full <> [] ->
  tree_within_limits t full = true ->
  exists t',
    delete_folder self p t = (Ok ("Deleted folder " +:+ p), t')
    /\ (forall r, view t' (full ++ r) = None)
    /\ (forall q, is_relative_to q full = false -> view t' q = view t q)
    /\ read_file self p t' = (Ok ("File " +:+ p +:+ " not found."), t').
Proof.
  intros Hv Hd Hne _.
  assert (exists_ t full = true) as Hex.
  { unfold is_dir, exists_ in *.
    destruct (stat t full) as [e|[c|ch]]; try discriminate. auto. }
  destruct (rmtree_removes full t Hd Hne) as (t' & Hrm & Hgone & Hframe).
  exists t'. split; [|split; [exact Hgone|split; [exact Hframe|]]].
  - unfold delete_folder. unfold_op. rewrite Hv. cbv beta iota. rewrite Hex.
    cbn [negb]. cbv beta iota. rewrite Hd. cbn [negb]. cbv beta iota.
    rewrite Hrm. reflexivity.
  - apply (read_file_missing _ _ _ _ Hv).
    rewrite <- (app_nil_r full). apply Hgone.
Qed.

Lemma delete_folder_removes_witness :
  _validate_path demo_store "docs" = inr ["srv"; "scratchpad"; "docs"]
  /\ is_dir demo_fs ["srv"; "scratchpad"; "docs"] = true
  /\ tree_within_limits demo_fs ["srv"; "scratchpad"; "docs"] = true
  /\ exists t',
      delete_folder demo_store "docs" demo_fs = (Ok "Deleted folder docs", t')
      /\ view t' ["srv"; "scratchpad"; "docs"; "plan.txt"] = None
      /\ view t' ["srv"; "scratchpad"; "notes.md"] = Some (SFile "second").
Proof.
  split; [reflexivity|]. split; [reflexivity|]. split; [reflexivity|].
  destruct (delete_folder_removes demo_store "docs"
              ["srv"; "scratchpad"; "docs"] demo_fs eq_refl eq_refl)
    as (t' & Hd & Hbelow & Hframe & _); [discriminate|reflexivity|].
  exists t'. split; [exact Hd|]. split; [apply (Hbelow ["plan.txt"])|].
  rewrite Hframe; reflexivity.
Defined.

(** ** Moving files and folders *)

(** [os.rename] of an entry, file or directory, to a free name in an
    existing directory that is not below the entry itself. *)
Lemma os_rename_moves (src dst : list string) (n : node) (t : node) :
  stat t src = inr n ->
  is_relative_to dst src = false ->
  view t dst = None ->
  view t (parent dst) = Some SDir ->
  exists t',
    os_rename src dst t = inr t'
    /\ (forall r, view t' (dst ++ r) = view t (src ++ r))
    /\ (forall r, view t' (src ++ r) = None)
    /\ forall q, is_relative_to q src = false -> is_relative_to q dst = false ->
                 view t' q = view t q.
Proof.
  intros Hstat Hin Hdst Hdpar.
  assert (exists s, view t src = Some s) as [s Hsrc].
  { unfold view. rewrite Hstat. destruct n; eauto. }
  destruct (snoc_cases dst) as [->|(dpar & dx & ->)].
  { simpl in Hdpar. congruence. }
  rewrite parent_snoc in Hdpar.
  assert (is_relative_to dpar src = false) as Hsd.
  { rewrite is_relative_to_snoc in Hin. apply orb_false_iff in Hin. tauto. }
  destruct (snoc_cases src) as [->|(spar & sx & ->)]; [discriminate|].
  assert (view t spar = Some SDir) as Hspar.
  { apply (view_app_Some _ _ _ _ Hsrc). discriminate. }
  assert (forall q, is_relative_to q (dpar ++ [dx]) = true -> view t q = None)
    as Hbelow.
  { intros q Hq. apply is_relative_to_spec in Hq as [r ->].
    apply view_app_None, Hdst. }
  assert (is_relative_to spar (dpar ++ [dx]) = false) as Hds.
  { destruct (is_relative_to spar (dpar ++ [dx])) eqn:H; [|reflexivity].
    rewrite (Hbelow _ H) in Hspar. discriminate. }
  assert (is_relative_to (spar ++ [sx]) (dpar ++ [dx]) = false) as Hds'.
  { destruct (is_relative_to (spar ++ [sx]) (dpar ++ [dx])) eqn:H;
      [|reflexivity].
    rewrite (Hbelow _ H) in Hsrc. discriminate. }
  pose proof Hdpar as Hdir. apply view_dir in Hdir as [ch Hdir].
  assert (ch !! dx = None) as Hdx.
  { unfold view in Hdst. rewrite (stat_snoc _ _ _ _ Hdir) in Hdst.
    destruct (ch !! dx) as [[c'|ch']|]; [discriminate|discriminate|reflexivity]. }
  unfold os_rename. rewrite Hstat.
  rewrite bool_decide_eq_false_2 by (intros E; rewrite E in Hsrc; congruence).
  rewrite !bool_decide_eq_false_2
    by (intros E; apply (f_equal length) in E; rewrite length_app in E;
        simpl in E; lia).
  cbn [orb]. rewrite Hin.
  assert (match n with Dir _ => false | File _ => false end = false) as ->
      by (destruct n; reflexivity).
  rewrite modify_snoc, Hdir, Hdx.
  set (t1 := graft dpar (Dir (set_entry (Some n) dx ch)) t).
  assert (view t1 spar = Some SDir) as Hspar1.
  { unfold t1. rewrite (graft_view_frame _ _ _ _ _ _ Hdir Hds). exact Hspar. }
  apply view_dir in Hspar1 as [ch1 Hdir1].
  rewrite modify_snoc, Hdir1. eexists. split; [reflexivity|].
  split; [|split].
  - intros r.
    assert (is_relative_to (dpar ++ [dx] ++ r) (spar ++ [sx]) = false) as Hq.
    { destruct (is_relative_to (dpar ++ [dx] ++ r) (spar ++ [sx])) eqn:H;
        [|reflexivity].
      destruct (prefixes_comparable (dpar ++ [dx] ++ r) (dpar ++ [dx])
                  (spar ++ [sx])) as [H1|H1];
        [rewrite app_assoc; apply is_relative_to_app|exact H|congruence|congruence]. }
    rewrite <- app_assoc.
    rewrite (graft_view_frame _ _ _ _ _ _ Hdir1 Hq). unfold t1. cbn [app].
    rewrite (graft_view_at _ _ _ _ _ r Hdir).
    unfold view. rewrite stat_app, Hstat. reflexivity.
  - intros r. rewrite <- app_assoc. cbn [app].
    apply (graft_view_at _ _ None _ _ r Hdir1).
  - intros q Hq1 Hq2.
    rewrite (graft_view_frame _ _ _ _ _ _ Hdir1 Hq1). unfold t1.
    apply (graft_view_frame _ _ _ _ _ _ Hdir Hq2).
Qed.

(** X16. When the source of [rename_file] is missing, at a path within the
    limits of the system, the operation says so and changes nothing, whether
    the destination exists or not. *)
Theorem rename_file_source_missing (self : AssistantFnc) (old new : string)
    (src dst : list string) (t : node) :
  _validate_path self old = inr src ->
  _validate_path self new = inr dst ->
  exists_ t src = false ->
  within_limits src = true ->
  rename_file self old new t
  = (Ok ("Error: Source path '" +:+ old +:+ "' does not exist"), t).
Proof.
  intros Hold Hnew Hsrc _. unfold rename_file. unfold_op.
  rewrite Hold. cbv beta iota. rewrite Hnew. cbv beta iota.
  rewrite Hsrc. reflexivity.
Qed.

Lemma rename_file_source_missing_witness :
  _validate_path demo_store "ghost.txt" = inr ["srv"; "scratchpad"; "ghost.txt"]
  /\ _validate_path demo_store "notes.md" = inr ["srv"; "scratchpad"; "notes.md"]
  /\ exists_ demo_fs ["srv"; "scratchpad"; "ghost.txt"] = false
  /\ within_limits ["srv"; "scratchpad"; "ghost.txt"] = true
  /\ rename_file demo_store "ghost.txt" "notes.md" demo_fs
     = (Ok "Error: Source path 'ghost.txt' does not exist", demo_fs).
Proof.
  repeat (split; [reflexivity|]).
  apply (rename_file_source_missing demo_store "ghost.txt" "notes.md"
           ["srv"; "scratchpad"; "ghost.txt"] ["srv"; "scratchpad"; "notes.md"]
           demo_fs eq_refl eq_refl eq_refl eq_refl).
Defined.

(** X17. [rename_file] moves whatever is at the source, a file or a folder with
    all it holds, provided the destination is free, is not below the source,
    no regular file lies on the way to it, and both paths are within the
    limits of the system: afterwards everything that
    was at or below the source is found, unchanged, at the same place below
    the destination, nothing is left at the source, the folders leading to
    the destination exist, and the rest looks as before. *)
Theorem rename_file_moves_tree (self : AssistantFnc) (old new : string)
    (src dst : list string) (t : node) :
  _validate_path self old = inr src ->
  _validate_path self new = inr dst ->
  exists_ t src = true ->
  exists_ t dst = false ->
  is_relative_to dst src = false ->
  no_file_on t (parent dst) = true ->
  within_limits src = true ->
  within_limits dst = true ->
  exists t',
    rename_file self old new t
    = (Ok ("Successfully renamed/moved '" +:+ old +:+ "' to '"
           +:+ new +:+ "'"), t')
    /\ (forall r, view t' (dst ++ r) = view t (src ++ r))
    /\ (forall r, view t' (src ++ r) = None)
    /\ forall q, is_relative_to q src = false -> is_relative_to q dst = false ->
                 view t' q
                 = if is_relative_to (parent dst) q then Some SDir
                   else view t q.
Proof.
  intros Hold Hnew Hsrc Hdst Hin Hway _ _.
  destruct (Path_mkdir_parents (parent dst) t
              (fun q => no_file_on_spec _ _ q Hway)) as (t1 & Hmk & Hview1).
  destruct (snoc_cases dst) as [->|(dpar & dx & ->)]; [discriminate|].
  rewrite parent_snoc in *.
  assert (is_relative_to dpar src = false) as Hsd.
  { rewrite is_relative_to_snoc in Hin. apply orb_false_iff in Hin. tauto. }
  assert (forall r, view t1 (src ++ r) = view t (src ++ r)) as Hsame.
  { intros r. rewrite Hview1.
    destruct (is_relative_to dpar (src ++ r)) eqn:H; [|reflexivity].
    rewrite (is_relative_to_trans _ _ _ H (is_relative_to_app src r)) in Hsd.
    discriminate. }
  assert (exists n, stat t1 src = inr n) as [n Hstat].
  { pose proof (Hsame []) as H. rewrite app_nil_r in H.
    rewrite exists_view, <- H in Hsrc. unfold view in Hsrc.
    destruct (stat t1 src) as [e|n]; [discriminate|eauto]. }
  assert (view t (dpar ++ [dx]) = None) as Hnone.
  { rewrite exists_view in Hdst. destruct (view t (dpar ++ [dx]));
      [discriminate|reflexivity]. }
  assert (view t1 (dpar ++ [dx]) = None) as Hnone1
      by (rewrite Hview1, is_relative_to_snoc_self; exact Hnone).
  destruct (os_rename_moves src (dpar ++ [dx]) n t1 Hstat Hin Hnone1)
    as (t' & Hmv & Hat & Hgone & Hframe).
  { rewrite parent_snoc, Hview1, is_relative_to_refl. reflexivity. }
  exists t'. split; [|split; [|split]].
  - unfold rename_file. unfold_op.
    rewrite Hold. cbv beta iota. rewrite Hnew. cbv beta iota.
    rewrite Hsrc. cbn [negb]. cbv beta iota. rewrite Hdst. cbv beta iota.
    rewrite parent_snoc, Hmk. cbv beta iota.
    unfold shutil_move, bind, gets. rewrite is_dir_view, Hnone1, Hmv.
    reflexivity.
  - intros r. rewrite Hat. apply Hsame.
  - exact Hgone.
  - intros q Hq1 Hq2. rewrite (Hframe q Hq1 Hq2). apply Hview1.
Qed.

Lemma rename_file_moves_tree_witness :
  _validate_path demo_store "docs" = inr ["srv"; "scratchpad"; "docs"]
  /\ _validate_path demo_store "old/docs"
     = inr ["srv"; "scratchpad"; "old"; "docs"]
  /\ exists_ demo_fs ["srv"; "scratchpad"; "docs"] = true
  /\ exists_ demo_fs ["srv"; "scratchpad"; "old"; "docs"] = false
  /\ is_relative_to ["srv"; "scratchpad"; "old"; "docs"]
       ["srv"; "scratchpad"; "docs"] = false
  /\ no_file_on demo_fs ["srv"; "scratchpad"; "old"] = true
  /\ within_limits ["srv"; "scratchpad"; "docs"] = true
  /\ within_limits ["srv"; "scratchpad"; "old"; "docs"] = true
  /\ exists t',
      rename_file demo_store "docs" "old/docs" demo_fs
      = (Ok "Successfully renamed/moved 'docs' to 'old/docs'", t')
      /\ view t' ["srv"; "scratchpad"; "old"; "docs"; "plan.txt"]
         = Some (SFile "draft")
      /\ view t' ["srv"; "scratchpad"; "docs"; "plan.txt"] = None.
Proof.
  repeat (split; [reflexivity|]).
  destruct (rename_file_moves_tree demo_store "docs" "old/docs"
              ["srv"; "scratchpad"; "docs"]
              ["srv"; "scratchpad"; "old"; "docs"] demo_fs
              eq_refl eq_refl eq_refl eq_refl eq_refl eq_refl eq_refl eq_refl)
    as (t' & Hmv & Hat & Hgone & _).
  exists t'. split; [exact Hmv|]. split.
  - apply (Hat ["plan.txt"]).
  - apply (Hgone ["plan.txt"]).
Defined.

(** X18. A folder cannot be moved below itself: with both paths within the
    limits of the system, [rename_file] reports the failure of
    [shutil.move], the folder stays where it is, but the folders that
    [rename_file] made on the way to the destination remain. *)
Theorem rename_file_into_itself (self : AssistantFnc) (old new : string)
    (src dst : list string) (t : node) :
  _validate_path self old = inr src ->
  _validate_path self new = inr dst ->
  is_dir t src = true ->
  exists_ t dst = false ->
  is_relative_to dst src = true ->
  no_file_on t (parent dst) = true ->
  within_limits src = true ->
  within_limits dst = true ->
  exists t',
    rename_file self old new t
    = (Ok ("Failed to rename '" +:+ old +:+ "': Cannot move a directory '"
           +:+ str_abs src +:+ "' into itself '" +:+ str_abs dst +:+ "'."), t')
    /\ forall q, view t' q
                 = if is_relative_to (parent dst) q then Some SDir
                   else view t q.
Proof.
  intros Hold Hnew Hsrc Hdst Hin Hway _ _.
  destruct (Path_mkdir_parents (parent dst) t
              (fun q => no_file_on_spec _ _ q Hway)) as (t1 & Hmk & Hview1).
  exists t1. split; [|exact Hview1].
  destruct (snoc_cases dst) as [->|(dpar & dx & ->)]; [discriminate|].
  rewrite parent_snoc in *.
  assert (exists_ t src = true) as Hex.
  { unfold is_dir, exists_ in *.
    destruct (stat t src) as [e|[c|ch]]; try discriminate. reflexivity. }
  assert (view t1 src = Some SDir) as Hsrc1.
  { rewrite Hview1. destruct (is_relative_to dpar src); [reflexivity|].
    rewrite is_dir_view in Hsrc.
    destruct (view t src) as [[c|]|]; try discriminate. reflexivity. }
  assert (view t1 (dpar ++ [dx]) = None) as Hnone1.
  { rewrite Hview1, is_relative_to_snoc_self.
    rewrite exists_view in Hdst. destruct (view t (dpar ++ [dx]));
      [discriminate|reflexivity]. }
  assert (exists e, os_rename src (dpar ++ [dx]) t1 = inl e) as [e Hmv].
  { unfold os_rename. apply view_dir in Hsrc1 as [ch Hstat]. rewrite Hstat.
    rewrite bool_decide_eq_false_2
      by (intros E; rewrite E, Hnone1 in Hsrc1 || (subst src;
            unfold view in Hnone1; rewrite Hstat in Hnone1; discriminate)).
    destruct (bool_decide (src = []) || bool_decide (dpar ++ [dx] = []));
      [eauto|].
    rewrite Hin. eauto. }
  unfold rename_file. unfold_op.
  rewrite Hold. cbv beta iota. rewrite Hnew. cbv beta iota.
  rewrite Hex. cbn [negb]. cbv beta iota. rewrite Hdst. cbv beta iota.
  rewrite parent_snoc, Hmk. cbv beta iota.
  unfold shutil_move, bind, gets.
  rewrite (is_dir_view t1 (dpar ++ [dx])), Hnone1, Hmv.
  rewrite (is_dir_view t1 src), Hsrc1, Hin. reflexivity.
Qed.

Lemma rename_file_into_itself_witness :
  _validate_path demo_store "docs" = inr ["srv"; "scratchpad"; "docs"]
  /\ _validate_path demo_store "docs/a/b"
     = inr ["srv"; "scratchpad"; "docs"; "a"; "b"]
  /\ is_dir demo_fs ["srv"; "scratchpad"; "docs"] = true
  /\ exists_ demo_fs ["srv"; "scratchpad"; "docs"; "a"; "b"] = false
  /\ is_relative_to ["srv"; "scratchpad"; "docs"; "a"; "b"]
       ["srv"; "scratchpad"; "docs"] = true
  /\ no_file_on demo_fs ["srv"; "scratchpad"; "docs"; "a"] = true
  /\ within_limits ["srv"; "scratchpad"; "docs"] = true
  /\ within_limits ["srv"; "scratchpad"; "docs"; "a"; "b"] = true
  /\ exists t',
      rename_file demo_store "docs" "docs/a/b" demo_fs
      = (Ok "Failed to rename 'docs': Cannot move a directory '/srv/scratchpad/docs' into itself '/srv/scratchpad/docs/a/b'.",
         t')
      /\ view demo_fs ["srv"; "scratchpad"; "docs"; "a"] = None
      /\ view t' ["srv"; "scratchpad"; "docs"; "a"] = Some SDir.
Proof.
  repeat (split; [reflexivity|]).
  destruct (rename_file_into_itself demo_store "docs" "docs/a/b"
              ["srv"; "scratchpad"; "docs"]
              ["srv"; "scratchpad"; "docs"; "a"; "b"] demo_fs
              eq_refl eq_refl eq_refl eq_refl eq_refl eq_refl eq_refl eq_refl)
    as (t' & Hmv & Hview).
  exists t'. split; [exact Hmv|]. split; [reflexivity|].
  rewrite Hview. reflexivity.
Defined.

(** ** Canonical paths *)

Lemma realpath_from (acc rest : list string) :
  forall x, x ∈ realpath acc rest ->
            x ∈ acc \/ (x ∈ rest /\ lstat_called x = true).
Proof.
  revert acc. induction rest as [|name rest IH]; intros acc x; cbn [realpath].
  - intros H. left. apply list_elem_of_In, in_rev, list_elem_of_In, H.
  - destruct (String.eqb name EmptyString || String.eqb name ".") eqn:E1.
    { intros H. destruct (IH _ _ H) as [?|[? ?]]; [tauto|].
      right. split; [right|]; assumption. }
    destruct (String.eqb name "..") eqn:E2.
    { intros H. destruct (IH _ _ H) as [H'|[? ?]].
      - left. destruct acc; [exact H'|right; exact H'].
      - right. split; [right|]; assumption. }
    intros H. destruct (IH _ _ H) as [H'|[? ?]].
    + apply elem_of_cons in H' as [->|H']; [|tauto].
      right. split; [left|].
      unfold lstat_called, is_name. apply orb_false_iff in E1 as [-> ->].
      rewrite E2. reflexivity.
    + right. split; [right|]; assumption.
Qed.

Lemma realpath_plain (acc p : list string) :
  Forall (fun x => lstat_called x = true) p ->
  realpath acc p = rev acc ++ p.
Proof.
  revert acc. induction p as [|name p IH]; intros acc Hp; cbn [realpath].
  - rewrite app_nil_r. reflexivity.
  - apply Forall_cons in Hp as [Hname Hp].
    unfold lstat_called, is_name in Hname.
    destruct (String.eqb name EmptyString); [discriminate|].
    destruct (String.eqb name "."); [discriminate|].
    destruct (String.eqb name ".."); [discriminate|].
    cbn [orb]. rewrite (IH _ Hp). cbn [rev]. rewrite <- app_assoc.
    reflexivity.
Qed.

Lemma realpath_app (acc a b : list string) :
  realpath acc (a ++ b) = realpath (rev (realpath acc a)) b.
Proof.
  revert acc. induction a as [|name a IH]; intros acc; cbn [app realpath].
  - rewrite rev_involutive. reflexivity.
  - destruct (String.eqb name EmptyString || String.eqb name ".");
      [apply IH|].
    destruct (String.eqb name ".."); apply IH.
Qed.

Lemma resolve_names (p full : list string) :
  resolve p = inr full ->
  Forall (fun x => lstat_called x = true /\ Str.contains "000" x = false) full.
Proof.
  unfold resolve.
  destruct (existsb _ p) eqn:E; [discriminate|]. intros [= <-].
  apply Forall_forall. intros x Hx.
  destruct (realpath_from [] p x Hx) as [H|[Hin Hcall]];
    [apply elem_of_nil in H; contradiction|].
  split; [exact Hcall|].
  destruct (Str.contains "000" x) eqn:Hnul; [|reflexivity].
  assert (existsb (fun name => lstat_called name && Str.contains "000" name) p
          = true) as H; [|congruence].
  apply existsb_exists. exists x. split.
  - apply list_elem_of_In, Hin.
  - rewrite Hcall, Hnul. reflexivity.
Qed.

Lemma resolve_fixed (p : list string) :
  Forall (fun x => lstat_called x = true /\ Str.contains "000" x = false) p ->
  resolve p = inr p.
Proof.
  intros Hp. unfold resolve.
  assert (existsb (fun name => lstat_called name && Str.contains "000" name) p
          = false) as ->.
  { destruct (existsb _ p) eqn:E; [|reflexivity].
    apply existsb_exists in E as (x & Hx & E).
    apply list_elem_of_In in Hx.
    destruct (proj1 (Forall_forall _ _) Hp x Hx) as [_ Hnul].
    rewrite Hnul, andb_false_r in E. discriminate. }
  rewrite realpath_plain; [reflexivity|].
  eapply Forall_impl; [exact Hp|]. intros x [H _]. exact H.
Qed.

(** X3. The path that [_validate_path] returns is canonical: every name of it is
    a proper name, neither empty nor ['.'] nor ['..'] and free of NUL,
    resolving it again gives the same path, and it is the resolved scratch
    directory or lies below it. *)
Theorem validated_path_canonical (self : AssistantFnc) (p : string)
    (full : list string) :
  _validate_path self p = inr full ->
  Forall (fun x => lstat_called x = true /\ Str.contains "000" x = false) full
  /\ resolve full = inr full
  /\ exists base, resolve (scratch_dir self) = inr base
                  /\ is_relative_to full base = true.
Proof.
  intros Hv.
  assert (exists q, resolve q = inr full) as [q Hq].
  { unfold _validate_path in Hv.
    destruct (parts (Path (Str.strip p))); [discriminate|].
    destruct (resolve (joinpath (scratch_dir self) (Path (Str.strip p))))
      as [e|full'] eqn:E; [discriminate|].
    destruct (resolve (scratch_dir self)) as [e|base]; [discriminate|].
    destruct (is_relative_to full' base); [|discriminate].
    injection Hv as <-. eauto. }
  pose proof (resolve_names _ _ Hq) as Hnames.
  split; [exact Hnames|]. split; [apply resolve_fixed, Hnames|].
  destruct (resolve (scratch_dir self)) as [e|base] eqn:Hbase.
  - unfold _validate_path in Hv. rewrite Hbase in Hv.
    destruct (parts (Path (Str.strip p))); [discriminate|].
    destruct (resolve (joinpath (scratch_dir self) (Path (Str.strip p))));
      discriminate.
  - exists base. split; [reflexivity|].
    apply (validate_inside self p full base Hbase Hv).
Qed.

Lemma validated_path_canonical_witness :
  _validate_path demo_store " ./docs/../docs//plan.txt "
  = inr ["srv"; "scratchpad"; "docs"; "plan.txt"]
  /\ resolve ["srv"; "scratchpad"; "docs"; "plan.txt"]
     = inr ["srv"; "scratchpad"; "docs"; "plan.txt"].
Proof.
  split; [reflexivity|].
  apply (validated_path_canonical demo_store " ./docs/../docs//plan.txt "
           ["srv"; "scratchpad"; "docs"; "plan.txt"] eq_refl).
Defined.

(** *** Plain relative paths *)

Lemma append_cons (a : ascii) (s r : string) :
  String a s +:+ r = String a (s +:+ r).
Proof. reflexivity. Qed.

Lemma split_plain (x : string) :
  Str.contains "/" x = false -> Str.split "/" x = [x].
Proof.
  induction x as [|a x IH]; cbn [Str.contains Str.split]; [reflexivity|].
  intros H. apply orb_false_iff in H as [-> H]. rewrite (IH H). reflexivity.
Qed.

Lemma split_plain_slash (x r : string) :
  Str.contains "/" x = false ->
  Str.split "/" (x +:+ "/" +:+ r) = x :: Str.split "/" r.
Proof.
  induction x as [|a x IH]; intros H.
  - reflexivity.
  - cbn [Str.contains] in H. apply orb_false_iff in H as [Ha H].
    rewrite append_cons. cbn [Str.split]. rewrite Ha, (IH H). reflexivity.
Qed.

Lemma split_join (ns : list string) :
  ns <> [] ->
  Forall (fun x => Str.contains "/" x = false) ns ->
  Str.split "/" (Str.join "/" ns) = ns.
Proof.
  induction ns as [|x ns IH]; [congruence|]. intros _ H.
  apply Forall_cons in H as [Hx Hns].
  destruct ns as [|y ns]; [apply split_plain, Hx|].
  change (Str.join "/" (x :: y :: ns))
    with (x +:+ "/" +:+ Str.join "/" (y :: ns)).
  rewrite (split_plain_slash _ _ Hx), IH; [reflexivity|discriminate|exact Hns].
Qed.

Lemma plain_name_spec (x : string) :
  plain_name x = true ->
  lstat_called x = true /\ Str.contains "000" x = false
  /\ Str.contains "/" x = false.
Proof.
  unfold plain_name. intros H.
  apply andb_true_iff in H as [H H3]. apply andb_true_iff in H as [H1 H2].
  apply negb_true_iff in H2, H3. tauto.
Qed.

Lemma splitroot_join (ns : list string) :
  Forall (fun x => plain_name x = true) ns ->
  splitroot (Str.join "/" ns) = EmptyString.
Proof.
  destruct ns as [|x ns]; [reflexivity|]. intros H.
  apply Forall_cons in H as [Hx _].
  apply plain_name_spec in Hx as (Hc & _ & Hs).
  destruct x as [|a x]; [discriminate|].
  cbn [Str.contains] in Hs. apply orb_false_iff in Hs as [Ha _].
  assert (exists r, Str.join "/" (String a x :: ns) = String a r) as [r ->].
  { destruct ns; [eexists; reflexivity|].
    change (Str.join "/" (String a x :: s :: ns))
      with (String a x +:+ "/" +:+ Str.join "/" (s :: ns)).
    rewrite append_cons. eauto. }
  unfold splitroot.
  destruct a as [[] [] [] [] [] [] [] []]; try reflexivity; discriminate.
Qed.

(** X4. In every state [t], a tree without symbolic links: a relative path
    written as plain names joined by ['/'], without surrounding whitespace,
    is validated to the place of that name below the scratch directory,
    provided the scratch directory is itself canonical (as [resolve] leaves
    it); validation leaves the state as it is. *)
Theorem plain_path_validated (self : AssistantFnc) (ns : list string)
    (t : node) :
  resolve (scratch_dir self) = inr (scratch_dir self) ->
  ns <> [] ->
  Forall (fun x => plain_name x = true) ns ->
  Str.strip (Str.join "/" ns) = Str.join "/" ns ->
  validate self (Str.join "/" ns) t = (Ok (scratch_dir self ++ ns), t).
Proof.
  intros Hbase Hne Hns Hstrip.
  enough (_validate_path self (Str.join "/" ns) = inr (scratch_dir self ++ ns))
    as Hv by (unfold validate, lift; rewrite Hv; reflexivity).
  assert (Forall (fun x => lstat_called x = true
                           /\ Str.contains "000" x = false) ns) as Hproper.
  { eapply Forall_impl; [exact Hns|]. intros x Hx.
    apply plain_name_spec in Hx. tauto. }
  assert (Path (Str.join "/" ns) = mkPath EmptyString ns) as HPath.
  { unfold Path. rewrite (splitroot_join _ Hns), split_join; [|exact Hne|].
    2:{ eapply Forall_impl; [exact Hns|]. intros x Hx.
        apply plain_name_spec in Hx. tauto. }
    f_equal. clear Hne Hstrip Hns.
    induction Hproper as [|x ns [Hx _] _ IH]; [reflexivity|].
    cbn [List.filter]. unfold lstat_called in Hx.
    apply andb_true_iff in Hx as [-> _]. rewrite IH. reflexivity. }
  unfold _validate_path. rewrite Hstrip, HPath.
  unfold parts, joinpath. cbn [root names String.eqb app].
  destruct ns as [|x ns]; [congruence|].
  rewrite Hbase.
  rewrite resolve_fixed, is_relative_to_app; [reflexivity|].
  apply Forall_app. split; [|exact Hproper].
  apply (resolve_names _ _ Hbase).
Qed.

Lemma plain_path_validated_witness :
  resolve (scratch_dir demo_store) = inr (scratch_dir demo_store)
  /\ Forall (fun x => plain_name x = true) ["docs"; "plan.txt"]
  /\ Str.strip "docs/plan.txt" = "docs/plan.txt"
  /\ validate demo_store "docs/plan.txt" demo_fs
     = (Ok ["srv"; "scratchpad"; "docs"; "plan.txt"], demo_fs).
Proof.
  split; [reflexivity|]. split; [repeat constructor|].
  split; [reflexivity|].
  apply (plain_path_validated demo_store ["docs"; "plan.txt"] demo_fs eq_refl).
  - discriminate.
  - repeat constructor.
  - reflexivity.
Defined.

(** ** Enumeration *)

Lemma node_size_child (ch : gmap string node) (x : string) (c : node) :
  ch !! x = Some c -> node_size c < node_size (Dir ch).
Proof.
  cbn [node_size]. intros H. apply Nat.lt_succ_r. revert x c H.
  apply (map_fold_weak_ind
           (fun (r : nat) (m : gmap string node) =>
              forall x c, m !! x = Some c -> node_size c <= r)).
  - intros x c H. rewrite lookup_empty in H. discriminate.
  - intros i c' m r Hi IH x c Hx.
    destruct (decide (i = x)) as [->|Hne].
    + rewrite lookup_insert_eq in Hx. injection Hx as ->. lia.
    + rewrite lookup_insert_ne in Hx by exact Hne.
      specialize (IH _ _ Hx). lia.
Qed.

(** Induction on trees: what holds of files, and of a directory once it
    holds of its entries, holds of every tree. *)
Lemma node_induction (P : node -> Prop) :
  (forall c, P (File c)) ->
  (forall ch, (forall x c, ch !! x = Some c -> P c) -> P (Dir ch)) ->
  forall n, P n.
Proof.
  intros HF HD n. remember (node_size n) as k eqn:Hk. revert n Hk.
  induction k as [k IH] using lt_wf_ind. intros [c|ch] Hk.
  - apply HF.
  - apply HD. intros x c Hx. apply (IH (node_size c)); [|reflexivity].
    subst k. apply (node_size_child _ _ _ Hx).
Qed.

Lemma walk_dir_elem (ch : gmap string node) (rel : list string) :
  rel ∈ walk (Dir ch)
  <-> exists x c, ch !! x = Some c
                  /\ (rel = [x] \/ exists r, rel = x :: r /\ r ∈ walk c).
Proof.
  simpl. revert rel.
  apply (map_fold_weak_ind
           (fun (r : list (list string)) (m : gmap string node) =>
              forall rel,
                rel ∈ r
                <-> exists x c, m !! x = Some c
                      /\ (rel = [x] \/ exists r', rel = x :: r' /\ r' ∈ walk c))).
  - intros rel. split.
    + intros H. apply elem_of_nil in H. contradiction.
    + intros (x & c & H & _). rewrite lookup_empty in H. discriminate.
  - intros i c m r Hi IH rel. cbv beta.
    rewrite elem_of_cons, elem_of_app, IH.
    split.
    + intros [->|[H|(x & c' & Hx & H)]].
      * exists i, c. rewrite lookup_insert_eq. split; [reflexivity|].
        left. reflexivity.
      * apply list_elem_of_fmap in H as (r' & -> & H).
        exists i, c. rewrite lookup_insert_eq. split; [reflexivity|].
        right. eauto.
      * exists x, c'. split; [|exact H].
        rewrite lookup_insert_ne; [exact Hx|]. intros ->. congruence.
    + intros (x & c' & Hx & H).
      destruct (decide (i = x)) as [->|Hne].
      * rewrite lookup_insert_eq in Hx. injection Hx as ->.
        destruct H as [->|(r' & -> & H)]; [left; reflexivity|].
        right. left. apply list_elem_of_fmap. eauto.
      * rewrite lookup_insert_ne in Hx by exact Hne. right. right. eauto.
Qed.

(** [walk] lists exactly the paths that exist strictly below a node. *)
Lemma walk_spec (n : node) :
  forall rel, rel ∈ walk n <-> rel <> [] /\ exists m, stat n rel = inr m.
Proof.
  induction n as [c|ch IH] using node_induction; intros rel.
  - simpl. split.
    + intros H. apply elem_of_nil in H. contradiction.
    + intros [Hne [m H]]. destruct rel; [congruence|discriminate].
  - rewrite walk_dir_elem. split.
    + intros (x & c & Hx & [->|(r & -> & Hr)]).
      * split; [discriminate|]. exists c. simpl. rewrite Hx. reflexivity.
      * split; [discriminate|]. apply (IH _ _ Hx) in Hr as [_ [m Hm]].
        exists m. simpl. rewrite Hx. exact Hm.
    + intros [Hne [m Hm]]. destruct rel as [|x r]; [congruence|].
      simpl in Hm. destruct (ch !! x) as [c|] eqn:Hx; [|discriminate].
      exists x, c. split; [exact Hx|].
      destruct r as [|y r]; [left; reflexivity|]. right.
      exists (y :: r). split; [reflexivity|].
      apply (IH _ _ Hx). split; [discriminate|eauto].
Qed.

(** What [tree_within_limits] says of a state. *)
Lemma tree_within_limits_spec (t : node) (p : list string) :
  tree_within_limits t p = true
  <-> within_limits p = true
      /\ forall rel, rel <> [] -> exists_ t (p ++ rel) = true ->
                     within_limits (p ++ rel) = true.
Proof.
  unfold tree_within_limits. rewrite andb_true_iff.
  split; intros [Hp H]; (split; [exact Hp|]).
  - intros rel Hne Hex. unfold exists_ in Hex. rewrite stat_app in Hex.
    destruct (stat t p) as [e|n]; [discriminate|].
    rewrite forallb_forall in H. apply H, list_elem_of_In, walk_spec.
    split; [exact Hne|]. destruct (stat n rel) as [e|m]; [discriminate|eauto].
  - destruct (stat t p) as [e|n] eqn:Hs; [reflexivity|].
    apply forallb_forall. intros rel Hrel.
    apply list_elem_of_In, walk_spec in Hrel as [Hne [m Hm]].
    apply H; [exact Hne|]. unfold exists_. rewrite stat_app, Hs, Hm.
    reflexivity.
Qed.

(** [walk] lists no path twice. *)
Lemma walk_NoDup (n : node) : NoDup (walk n).
Proof.
  induction n as [c|ch IH] using node_induction; [constructor|].
  simpl.
  enough (NoDup (map_fold (fun name c acc =>
                             ([name] :: List.map (cons name) (walk c)) ++ acc)
                   [] ch)
          /\ forall rel,
               rel ∈ map_fold (fun name c acc =>
                             ([name] :: List.map (cons name) (walk c)) ++ acc)
                   [] ch ->
               exists x r, rel = x :: r /\ is_Some (ch !! x)) as [H _]
      by exact H.
  revert IH.
  apply (map_fold_weak_ind
           (fun (r : list (list string)) (m : gmap string node) =>
              (forall x c, m !! x = Some c -> NoDup (walk c)) ->
              NoDup r
              /\ forall rel, rel ∈ r ->
                             exists x r', rel = x :: r' /\ is_Some (m !! x))).
  - intros _. split; [constructor|].
    intros rel H. apply elem_of_nil in H. contradiction.
  - intros i c m r Hi IHm Hch.
    destruct IHm as [Hr Hhead].
    { intros x c' Hx. apply (Hch x c').
      rewrite lookup_insert_ne; [exact Hx|]. intros ->. congruence. }
    assert (NoDup (walk c)) as Hc
        by (apply (Hch i c); apply lookup_insert_eq).
    split.
    + apply NoDup_app. split; [|split; [|exact Hr]].
      * apply NoDup_cons. split.
        -- intros H. apply list_elem_of_fmap in H as (r' & E & H).
           injection E as <-. apply walk_spec in H as [H _]. congruence.
        -- apply (NoDup_fmap_2 (cons i)), Hc.
      * intros rel Hrel Hin. apply Hhead in Hin as (x & r' & -> & [c' Hx]).
        apply elem_of_cons in Hrel as [E|Hrel].
        -- injection E as -> _. congruence.
        -- apply list_elem_of_fmap in Hrel as (r'' & E & _).
           injection E as -> _. congruence.
    + intros rel Hrel. apply elem_of_app in Hrel as [Hrel|Hrel].
      * exists i. apply elem_of_cons in Hrel as [->|Hrel].
        -- exists []. split; [reflexivity|]. rewrite lookup_insert_eq. eauto.
        -- apply list_elem_of_fmap in Hrel as (r' & -> & _).
           exists r'. split; [reflexivity|]. rewrite lookup_insert_eq. eauto.
      * apply Hhead in Hrel as (x & r' & -> & [c' Hx]).
        exists x, r'. split; [reflexivity|].
        rewrite lookup_insert_ne; [eauto|]. intros ->. congruence.
Qed.

(** ** What the listings list *)

(** Everything strictly below the scratch directory, as [rglob] finds it,
    and the names in the scratch directory itself, as [glob] finds them. *)
Lemma rglob_walk (self : AssistantFnc) (t : node) :
  exists rels,
    rglob (scratch_dir self) t = List.map (app (scratch_dir self)) rels
    /\ NoDup rels
    /\ forall rel, rel ∈ rels
                   <-> rel <> [] /\ exists_ t (scratch_dir self ++ rel) = true.
Proof.
  unfold rglob, exists_.
  destruct (stat t (scratch_dir self)) as [e|n] eqn:Hroot.
  - exists []. split; [reflexivity|]. split; [constructor|].
    intros rel. rewrite stat_app, Hroot. split.
    + intros H. apply elem_of_nil in H. contradiction.
    + intros [_ H]. discriminate.
  - exists (walk n). split; [reflexivity|]. split; [apply walk_NoDup|].
    intros rel. rewrite stat_app, Hroot, walk_spec.
    destruct (stat n rel) as [e|m]; split; intros [Hne H];
      (split; [exact Hne|]); eauto; try discriminate.
    destruct H as [m H]. discriminate.
Qed.

Lemma glob_names (self : AssistantFnc) (t : node) :
  exists names,
    glob (scratch_dir self) t
    = List.map (app (scratch_dir self)) (List.map (fun x => [x]) names)
    /\ NoDup names
    /\ forall x, x ∈ names <-> exists_ t (scratch_dir self ++ [x]) = true.
Proof.
  unfold glob, exists_.
  destruct (stat t (scratch_dir self)) as [e|[c|ch]] eqn:Hroot.
  - exists []. split; [reflexivity|]. split; [constructor|].
    intros x. rewrite stat_app, Hroot. split.
    + intros H. apply elem_of_nil in H. contradiction.
    + discriminate.
  - exists []. split; [reflexivity|]. split; [constructor|].
    intros x. rewrite stat_app, Hroot. split.
    + intros H. apply elem_of_nil in H. contradiction.
    + discriminate.
  - exists (List.map fst (map_to_list ch)). split; [|split].
    + rewrite !List.map_map. reflexivity.
    + apply NoDup_fst_map_to_list.
    + intros x. rewrite (stat_snoc _ _ _ _ Hroot). split.
      * intros H. apply list_elem_of_fmap in H as ([y c] & -> & H).
        apply elem_of_map_to_list in H. simpl. rewrite H. reflexivity.
      * destruct (ch !! x) as [c|] eqn:Hx; [|discriminate]. intros _.
        apply (list_elem_of_fmap_2' _ _ (x, c)); [|reflexivity].
        apply elem_of_map_to_list, Hx.
Qed.

Lemma filter_NoDup {A} (f : A -> bool) (l : list A) :
  NoDup l -> NoDup (List.filter f l).
Proof.
  induction 1 as [|x l Hx Hl IH]; simpl; [constructor|].
  destruct (f x); [|exact IH]. constructor; [|exact IH].
  intros H. apply Hx. apply list_elem_of_In in H. apply filter_In in H as [H _].
  apply list_elem_of_In, H.
Qed.

Lemma filter_elem {A} (f : A -> bool) (l : list A) (x : A) :
  x ∈ List.filter f l <-> x ∈ l /\ f x = true.
Proof. rewrite !list_elem_of_In. apply filter_In. Qed.

Lemma insert_sorted_cons {A} (lt : A -> A -> bool) (x : A) (l : list A) :
  exists y l', insert_sorted lt x l = y :: l'.
Proof. destruct l as [|y l]; simpl; [eauto|]. destruct (lt y x); eauto. Qed.

(** The result of a listing shows the sentinel exactly when the sorted list
    is empty. *)
Lemma render_sorted (lt : string -> string -> bool) (l : list string)
    (none : string) :
  match l with [] => none | _ => Str.join nl (sorted lt l) end
  = match sorted lt l with [] => none | _ => Str.join nl (sorted lt l) end.
Proof.
  destruct l as [|x l]; [reflexivity|]. simpl.
  destruct (insert_sorted_cons lt x (sorted lt l)) as (y & l' & ->).
  reflexivity.
Qed.

Lemma list_files_with_extensions_loop (self : AssistantFnc) (t : node)
    (rels : list (list string)) (items : list string) :
  for_each (List.map (app (scratch_dir self)) rels)
    (fun path file_list =>
       f <- gets (fun t => is_file t path) ;;
       if f : bool then
         match relative_to path (scratch_dir self) with
         | None => value_error
         | Some rel_path => ret (file_list ++ [str_rel rel_path])
         end
       else ret file_list) items t
  = (Ok (items
         ++ List.map str_rel
              (List.filter (fun rel => is_file t (scratch_dir self ++ rel))
                 rels)), t).
Proof.
  revert items. induction rels as [|rel rels IH]; intros items;
    cbn [for_each List.map List.filter].
  - rewrite app_nil_r. reflexivity.
  - unfold bind at 1. unfold bind at 1, gets at 1.
    destruct (is_file t (scratch_dir self ++ rel)).
    + rewrite relative_to_app. unfold ret at 1. rewrite IH.
      cbn [List.map]. rewrite <- app_assoc. reflexivity.
    + unfold ret at 1. apply IH.
Qed.

Lemma with_suffix_empty_last (rel : list string) :
  rel <> [] ->
  with_suffix_empty rel
  = Some (parent rel ++ [strip_suffix (List.last rel EmptyString)]).
Proof.
  induction rel as [|x rel IH]; [congruence|]. intros _.
  destruct rel as [|y rel]; [reflexivity|].
  change (with_suffix_empty (x :: y :: rel))
    with (cons x <$> with_suffix_empty (y :: rel)).
  rewrite IH by discriminate. reflexivity.
Qed.

Lemma list_files_loop (self : AssistantFnc) (t : node)
    (rels : list (list string)) (items : list string) :
  Forall (fun rel => rel <> []) rels ->
  for_each (List.map (app (scratch_dir self)) rels)
    (fun path file_list =>
       f <- gets (fun t => is_file t path) ;;
       if f : bool then
         match relative_to path (scratch_dir self) with
         | None => value_error
         | Some rel_path =>
             match with_suffix_empty rel_path with
             | None => value_error
             | Some stem => ret (file_list ++ [str_rel stem])
             end
         end
       else ret file_list) items t
  = (Ok (items
         ++ List.map
              (fun rel =>
                 str_rel (parent rel
                          ++ [strip_suffix (List.last rel EmptyString)]))
              (List.filter (fun rel => is_file t (scratch_dir self ++ rel))
                 rels)), t).
Proof.
  intros Hne. revert items.
  induction Hne as [|rel rels Hrel _ IH]; intros items;
    cbn [for_each List.map List.filter].
  - rewrite app_nil_r. reflexivity.
  - unfold bind at 1. unfold bind at 1, gets at 1.
    destruct (is_file t (scratch_dir self ++ rel)).
    + rewrite relative_to_app, (with_suffix_empty_last _ Hrel).
      unfold ret at 1. rewrite IH.
      cbn [List.map]. rewrite <- app_assoc. reflexivity.
    + unfold ret at 1. apply IH.
Qed.

Lemma files_below (self : AssistantFnc) (t : node) (rels : list (list string)) :
  NoDup rels ->
  (forall rel, rel ∈ rels
               <-> rel <> [] /\ exists_ t (scratch_dir self ++ rel) = true) ->
  NoDup (List.filter (fun rel => is_file t (scratch_dir self ++ rel)) rels)
  /\ forall rel,
       rel ∈ List.filter (fun rel => is_file t (scratch_dir self ++ rel)) rels
       <-> rel <> [] /\ is_file t (scratch_dir self ++ rel) = true.
Proof.
  intros Hnd Hin. split; [apply filter_NoDup, Hnd|].
  intros rel. rewrite filter_elem, Hin. unfold exists_, is_file.
  destruct (stat t (scratch_dir self ++ rel)) as [e|[c|ch]]; intuition.
Qed.

(** X19. When the scratch directory and all it holds are within the limits of
    the system, [list_files_with_extensions] returns one line for each
    regular file strictly below the scratch directory, the path of the file
    relative to the scratch directory, in ascending order; and the sentinel
    when there is no such file (also when the scratch directory is missing).
    The filesystem is not changed. *)
Theorem list_files_with_extensions_lines (self : AssistantFnc) (t : node) :
  tree_within_limits t (scratch_dir self) = true ->
  exists rels lines,
    NoDup rels
    /\ (forall rel,
          rel ∈ rels
          <-> rel <> [] /\ is_file t (scratch_dir self ++ rel) = true)
    /\ lines ≡ₚ List.map str_rel rels
    /\ StronglySorted (may_precede String.ltb) lines
    /\ list_files_with_extensions self t
       = (Ok (match lines with
              | [] => "No files found"
              | _ => Str.join nl lines
              end), t).
Proof.
  intros _.
  destruct (rglob_walk self t) as (all & Hall & Hnd & Hin).
  destruct (files_below self t all Hnd Hin) as [Hnd' Hin'].
  eexists _, (sorted String.ltb _). split; [exact Hnd'|].
  split; [exact Hin'|]. split; [apply sorted_perm|]. split.
  - apply sorted_ordered; [apply string_ltb_asym|apply string_precede_trans].
  - unfold list_files_with_extensions, try_except, bind at 1.
    unfold bind at 1, gets at 1. rewrite Hall.
    rewrite list_files_with_extensions_loop. cbn [app]. unfold ret.
    rewrite render_sorted. reflexivity.
Qed.

Lemma list_files_with_extensions_lines_witness :
  tree_within_limits demo_fs (scratch_dir demo_store) = true
  /\ exists rels lines,
      NoDup rels
      /\ (forall rel,
            rel ∈ rels
            <-> rel <> []
                /\ is_file demo_fs (scratch_dir demo_store ++ rel) = true)
      /\ lines ≡ₚ List.map str_rel rels
      /\ StronglySorted (may_precede String.ltb) lines
      /\ list_files_with_extensions demo_store demo_fs
         = (Ok (match lines with
                | [] => "No files found"
                | _ => Str.join nl lines
                end), demo_fs).
Proof.
  split; [reflexivity|].
  apply (list_files_with_extensions_lines demo_store demo_fs eq_refl).
Defined.

(** X20. When the scratch directory and all it holds are within the limits of
    the system, [list_files] returns one line for each regular file strictly
    below the scratch directory: its relative path with the suffix of the
    final name removed; so two files that differ in the suffix only give the
    same line twice.  The lines are in ascending order, and the sentinel is
    returned when there is no file. *)
Theorem list_files_lines (self : AssistantFnc) (t : node) :
  tree_within_limits t (scratch_dir self) = true ->
  exists rels lines,
    NoDup rels
    /\ (forall rel,
          rel ∈ rels
          <-> rel <> [] /\ is_file t (scratch_dir self ++ rel) = true)
    /\ lines ≡ₚ List.map
                  (fun rel =>
                     str_rel (parent rel
                              ++ [strip_suffix (List.last rel EmptyString)]))
                  rels
    /\ StronglySorted (may_precede String.ltb) lines
    /\ list_files self t
       = (Ok (match lines with
              | [] => "No files found"
              | _ => Str.join nl lines
              end), t).
Proof.
  intros _.
  destruct (rglob_walk self t) as (all & Hall & Hnd & Hin).
  destruct (files_below self t all Hnd Hin) as [Hnd' Hin'].
  eexists _, (sorted String.ltb _). split; [exact Hnd'|].
  split; [exact Hin'|]. split; [apply sorted_perm|]. split.
  - apply sorted_ordered; [apply string_ltb_asym|apply string_precede_trans].
  - unfold list_files, try_except, bind at 1.
    unfold bind at 1, gets at 1. rewrite Hall.
    rewrite list_files_loop.
    2:{ apply Forall_forall. intros rel Hrel. apply Hin in Hrel. tauto. }
    cbn [app]. unfold ret.
    rewrite render_sorted. reflexivity.
Qed.

Lemma list_files_lines_witness :
  tree_within_limits demo_fs (scratch_dir demo_store) = true
  /\ exists rels lines,
      NoDup rels
      /\ (forall rel,
            rel ∈ rels
            <-> rel <> []
                /\ is_file demo_fs (scratch_dir demo_store ++ rel) = true)
      /\ lines ≡ₚ List.map
                    (fun rel =>
                       str_rel (parent rel
                                ++ [strip_suffix (List.last rel EmptyString)]))
                    rels
      /\ StronglySorted (may_precede String.ltb) lines
      /\ list_files demo_store demo_fs
         = (Ok (match lines with
                | [] => "No files found"
                | _ => Str.join nl lines
                end), demo_fs).
Proof.
  split; [reflexivity|].
  apply (list_files_lines demo_store demo_fs eq_refl).
Defined.

Lemma list_all_items_general (self : AssistantFnc) (t : node)
    (rels : list (list string)) (names : list string) :
  rglob (scratch_dir self) t = List.map (app (scratch_dir self)) rels ->
  glob (scratch_dir self) t
  = List.map (app (scratch_dir self)) (List.map (fun x => [x]) names) ->
  list_all_items self t
  = (Ok (concat (List.map (entry_line self t) rels)
         ++ concat (List.map (entry_line self t)
                      (List.map (fun x => [x]) names))), t).
Proof.
  intros Hr Hg. unfold list_all_items, bind, gets.
  rewrite Hr, list_all_first_lines. cbv beta iota. rewrite Hg.
  cbn [app]. apply list_all_second_lines.
Qed.

(** X21. What [list_all] returns when the scratch directory and all it holds
    are within the limits of the system: one line for every file and folder
    strictly below the scratch directory and, from its second loop, one more
    line for every entry of the scratch directory itself; a folder has its
    relative path followed by [" (Folder)"], a file its relative path.  The
    lines are sorted by the key of the code, and the sentinel is returned
    when there is none. *)
Theorem list_all_lines (self : AssistantFnc) (t : node) :
  tree_within_limits t (scratch_dir self) = true ->
  exists rels names lines,
    NoDup rels
    /\ (forall rel,
          rel ∈ rels
          <-> rel <> [] /\ exists_ t (scratch_dir self ++ rel) = true)
    /\ NoDup names
    /\ (forall x, x ∈ names <-> exists_ t (scratch_dir self ++ [x]) = true)
    /\ lines ≡ₚ concat (List.map (entry_line self t) rels)
                ++ concat (List.map (entry_line self t)
                             (List.map (fun x => [x]) names))
    /\ StronglySorted (may_precede line_ltb) lines
    /\ list_all self t
       = (Ok (match lines with
              | [] => "No files or folders found"
              | _ => Str.join nl lines
              end), t).
Proof.
  intros _.
  destruct (rglob_walk self t) as (rels & Hr & Hnd & Hin).
  destruct (glob_names self t) as (names & Hg & Hnd' & Hin').
  destruct (list_all_sorted self t t _
              (list_all_items_general self t rels names Hr Hg))
    as (lines & Hperm & Hsorted & Hres).
  exists rels, names, lines. tauto.
Qed.

Lemma list_all_lines_witness :
  tree_within_limits demo_fs (scratch_dir demo_store) = true
  /\ exists rels names lines,
      NoDup rels
      /\ (forall rel,
            rel ∈ rels
            <-> rel <> []
                /\ exists_ demo_fs (scratch_dir demo_store ++ rel) = true)
      /\ NoDup names
      /\ (forall x,
            x ∈ names <-> exists_ demo_fs (scratch_dir demo_store ++ [x]) = true)
      /\ lines ≡ₚ concat (List.map (entry_line demo_store demo_fs) rels)
                  ++ concat (List.map (entry_line demo_store demo_fs)
                               (List.map (fun x => [x]) names))
      /\ StronglySorted (may_precede line_ltb) lines
      /\ list_all demo_store demo_fs
         = (Ok (match lines with
                | [] => "No files or folders found"
                | _ => Str.join nl lines
                end), demo_fs).
Proof.
  split; [reflexivity|].
  apply (list_all_lines demo_store demo_fs eq_refl).
Defined.

(** X22. With nothing in the scratch directory, or no scratch directory at all,
    each listing returns its sentinel. *)
Theorem listings_of_empty (self : AssistantFnc) (t : node) :
  (forall x, exists_ t (scratch_dir self ++ [x]) = false) ->
  list_files self t = (Ok "No files found", t)
  /\ list_files_with_extensions self t = (Ok "No files found", t)
  /\ list_all self t = (Ok "No files or folders found", t).
Proof.
  intros Hempty.
  destruct (rglob_walk self t) as (rels & Hr & _ & Hin).
  destruct (glob_names self t) as (names & Hg & _ & Hin').
  assert (rels = []) as ->.
  { destruct rels as [|rel rels]; [reflexivity|]. exfalso.
    destruct (proj1 (Hin rel)) as [Hne Hex]; [left|].
    destruct rel as [|x r]; [congruence|].
    specialize (Hempty x). unfold exists_ in *.
    change (x :: r) with ([x] ++ r) in Hex.
    rewrite app_assoc, stat_app in Hex.
    destruct (stat t (scratch_dir self ++ [x])); discriminate. }
  assert (names = []) as ->.
  { destruct names as [|x names]; [reflexivity|]. exfalso.
    specialize (Hempty x). rewrite (proj1 (Hin' x)) in Hempty;
      [discriminate|left]. }
  split; [|split].
  - unfold list_files, try_except, bind, gets. rewrite Hr. reflexivity.
  - unfold list_files_with_extensions, try_except, bind, gets. rewrite Hr.
    reflexivity.
  - unfold list_all, try_except, bind.
    rewrite (list_all_items_general self t [] [] Hr Hg). reflexivity.
Qed.

Lemma listings_of_empty_witness :
  (forall x, exists_ (scratchpad_with ∅) (scratch_dir demo_store ++ [x]) = false)
  /\ list_files demo_store (scratchpad_with ∅)
     = (Ok "No files found", scratchpad_with ∅)
  /\ list_all demo_store (scratchpad_with ∅)
     = (Ok "No files or folders found", scratchpad_with ∅).
Proof.
  assert (forall x, exists_ (scratchpad_with ∅) (scratch_dir demo_store ++ [x])
                    = false) as H by (intros x; reflexivity).
  split; [exact H|].
  destruct (listings_of_empty demo_store (scratchpad_with ∅) H)
    as (H1 & _ & H3).
  split; [exact H1|exact H3].
Defined.

(** ** The constructor *)

(** Wherever [mkdir(parents=True)] or [mkdir()] returns, the path is a
    directory. *)
Lemma mkdir_here_dir (p : list string) (ok : bool) (t t' : node) :
  mkdir_here p ok t = (Ok tt, t') -> is_dir t' p = true.
Proof.
  unfold mkdir_here. destruct (os_mkdir p t) as [e|t1] eqn:Hmk.
  - destruct e; try discriminate;
      (destruct ok; [|discriminate]); cbn [andb];
      (destruct (is_dir t p) eqn:Hd; [|discriminate]);
      intros [= <-]; exact Hd.
  - intros [= <-]. apply os_mkdir_inv in Hmk as (_ & _ & Hview).
    rewrite is_dir_view, Hview, bool_decide_eq_true_2; reflexivity.
Qed.

Lemma Path_mkdir_dir (p : list string) (parents ok : bool) (t t' : node) :
  Path_mkdir p parents ok t = (Ok tt, t') -> is_dir t' p = true.
Proof.
  unfold Path_mkdir. destruct parents; [|apply mkdir_here_dir].
  rewrite mkdir_parents_eq, rev_involutive.
  destruct (os_mkdir p t) as [e|t1] eqn:Hmk.
  - destruct e;
      try ((destruct ok; [|discriminate]); cbn [andb];
           (destruct (is_dir t p) eqn:Hd; [|discriminate]);
           intros [= <-]; exact Hd).
    destruct (rev p) as [|x rp]; [discriminate|].
    destruct (mkdir_parents rp true t) as [[[]|e] t1]; [|discriminate].
    apply mkdir_here_dir.
  - intros [= <-]. apply os_mkdir_inv in Hmk as (_ & _ & Hview).
    rewrite is_dir_view, Hview, bool_decide_eq_true_2; reflexivity.
Qed.

Lemma prefixes_inv (p q : list string) :
  In q (prefixes p) -> is_relative_to p q = true.
Proof.
  revert q. induction p as [|x p IH]; intros q; cbn [prefixes In].
  - intros [<-|[]]. reflexivity.
  - intros [<-|H]; [reflexivity|].
    apply in_map_iff in H as (q' & <- & H). cbn [is_relative_to].
    rewrite String.eqb_refl. apply (IH _ H).
Qed.

(** X5. A store that [__init__] returns has a scratch directory that exists, is
    a directory and is canonical (resolving it gives it back); to get there
    the constructor has at most made directories, the scratch directory and
    missing parents of it, and has changed nothing else. *)
Theorem init_establishes (SCRATCH_PAD_DIR : option string)
    (cwd : list string) (t t' : node) (self : AssistantFnc) :
  __init__ SCRATCH_PAD_DIR cwd t = (Ok self, t') ->
  is_dir t' (scratch_dir self) = true
  /\ resolve (scratch_dir self) = inr (scratch_dir self)
  /\ dirs_added (scratch_dir self) t t'.
Proof.
  unfold __init__, bind, lift.
  destruct (resolve (joinpath cwd (Path (getenv SCRATCH_PAD_DIR "./scratchpad"))))
    as [e|d] eqn:Hres; [discriminate|].
  unfold ret at 1.
  destruct (Path_mkdir d true true t) as [[[]|e] t1] eqn:Hmk; [|discriminate].
  intros [= <- <-]. cbn [scratch_dir].
  split; [apply (Path_mkdir_dir _ _ _ _ _ Hmk)|].
  split; [apply resolve_fixed, (resolve_names _ _ Hres)|].
  apply (Path_mkdir_dirs_added _ _ _ _ _ _ Hmk).
Qed.

Lemma init_establishes_witness :
  exists t',
    __init__ None ["home"; "agent"] (Dir ∅)
    = (Ok {| scratch_dir := ["home"; "agent"; "scratchpad"] |}, t')
    /\ is_dir t' ["home"; "agent"; "scratchpad"] = true.
Proof.
  exists (__init__ None ["home"; "agent"] (Dir ∅)).2.
  assert (__init__ None ["home"; "agent"] (Dir ∅)
          = (Ok {| scratch_dir := ["home"; "agent"; "scratchpad"] |},
             (__init__ None ["home"; "agent"] (Dir ∅)).2)) as H
      by reflexivity.
  split; [exact H|].
  apply (init_establishes None ["home"; "agent"] (Dir ∅) _ _ H).
Defined.

(** X6. Whether the constructor returns is decided by the files on the way to
    the scratch directory: with none, and the path of the scratch directory
    within the limits of the system, it returns the store and has made the
    scratch directory and its missing parents; with a regular file at the
    place of the scratch directory or of one of its parents, it raises. *)
Theorem init_outcome (SCRATCH_PAD_DIR : option string) (cwd d : list string)
    (t : node) :
  resolve (joinpath cwd (Path (getenv SCRATCH_PAD_DIR "./scratchpad")))
  = inr d ->
  (no_file_on t d = true ->
   within_limits d = true ->
   exists t',
     __init__ SCRATCH_PAD_DIR cwd t = (Ok {| scratch_dir := d |}, t')
     /\ forall q, view t' q = if is_relative_to d q then Some SDir
                              else view t q)
  /\ (no_file_on t d = false ->
      exists e t', __init__ SCRATCH_PAD_DIR cwd t = (Raise e, t')).
Proof.
  intros Hres. unfold __init__, bind, lift. rewrite Hres. unfold ret.
  cbv beta iota. split.
  - intros Hway _.
    destruct (Path_mkdir_parents d t (fun q => no_file_on_spec _ _ q Hway))
      as (t' & Hmk & Hview).
    exists t'. rewrite Hmk. split; [reflexivity|exact Hview].
  - intros Hway.
    destruct (Path_mkdir d true true t) as [[[]|e] t1] eqn:Hmk; [|eauto].
    exfalso.
    pose proof (Path_mkdir_dir _ _ _ _ _ Hmk) as Hdir.
    pose proof (Path_mkdir_dirs_added _ _ _ _ _ _ Hmk) as Hadd.
    assert (no_file_on t d = true) as Hno; [|congruence].
    unfold no_file_on. apply forallb_forall. intros q Hq.
    apply prefixes_inv, is_relative_to_spec in Hq as [r ->].
    rewrite is_dir_view in Hdir.
    destruct (view t1 (q ++ r)) as [[c|]|] eqn:Hv; try discriminate.
    assert (view t1 q = Some SDir) as Hq1.
    { destruct r as [|x r]; [rewrite app_nil_r in Hv; exact Hv|].
      apply (view_app_Some _ _ _ _ Hv). discriminate. }
    rewrite is_file_view.
    destruct (Hadd q) as [E|(N & _)]; [rewrite <- E, Hq1|rewrite N];
      reflexivity.
Qed.

Lemma init_outcome_witness :
  resolve (joinpath ["home"; "agent"] (Path (getenv (Some "/srv/scratchpad/docs/plan.txt") "./scratchpad")))
  = inr ["srv"; "scratchpad"; "docs"; "plan.txt"]
  /\ no_file_on demo_fs ["srv"; "scratchpad"; "docs"; "plan.txt"] = false
  /\ (exists e t',
        __init__ (Some "/srv/scratchpad/docs/plan.txt") ["home"; "agent"]
          demo_fs
        = (Raise e, t'))
  /\ resolve (joinpath ["home"; "agent"] (Path (getenv None "./scratchpad")))
     = inr ["home"; "agent"; "scratchpad"]
  /\ no_file_on demo_fs ["home"; "agent"; "scratchpad"] = true
  /\ within_limits ["home"; "agent"; "scratchpad"] = true
  /\ exists t',
      __init__ None ["home"; "agent"] demo_fs
      = (Ok {| scratch_dir := ["home"; "agent"; "scratchpad"] |}, t')
      /\ view t' ["home"; "agent"; "scratchpad"] = Some SDir.
Proof.
  split; [reflexivity|]. split; [reflexivity|]. split.
  { apply (init_outcome (Some "/srv/scratchpad/docs/plan.txt")
             ["home"; "agent"] ["srv"; "scratchpad"; "docs"; "plan.txt"]
             demo_fs eq_refl).
    reflexivity. }
  split; [reflexivity|]. split; [reflexivity|]. split; [reflexivity|].
  destruct (proj1 (init_outcome None ["home"; "agent"]
                     ["home"; "agent"; "scratchpad"] demo_fs eq_refl)
              eq_refl eq_refl) as (t' & Hinit & Hview).
  exists t'. split; [exact Hinit|]. rewrite Hview. reflexivity.
Defined.

(** ** A regular file in the way *)

Lemma forallb_false_elem {A} (f : A -> bool) (l : list A) :
  forallb f l = false -> exists x, In x l /\ f x = false.
Proof.
  induction l as [|x l IH]; simpl; [discriminate|].
  destruct (f x) eqn:Hx.
  - intros H. destruct (IH H) as (y & Hy & Hf). eauto.
  - intros _. eauto.
Qed.

(** A regular file at [p] or at one of its parents. *)
Lemma no_file_on_false (t : node) (p : list string) :
  no_file_on t p = false ->
  exists q r c, p = q ++ r /\ view t q = Some (SFile c).
Proof.
  intros H. apply forallb_false_elem in H as (q & Hq & Hf).
  apply prefixes_inv, is_relative_to_spec in Hq as [r ->].
  apply negb_false_iff in Hf. rewrite is_file_view in Hf.
  destruct (view t q) as [[c|]|] eqn:Hv; try discriminate. eauto.
Qed.

Lemma os_mkdir_blocked (p : list string) (t : node) :
  no_file_on t p = false ->
  os_mkdir p t = inl (if is_file t p then EEXIST else ENOTDIR)
  /\ is_dir t p = false.
Proof.
  intros H. apply no_file_on_false in H as (q & r & c & -> & Hq).
  destruct (snoc_cases r) as [->|(r' & x & ->)].
  - rewrite app_nil_r, is_file_view, is_dir_view, Hq.
    split; [apply (os_mkdir_exists _ _ _ Hq)|reflexivity].
  - assert (view t (q ++ r' ++ [x]) = None) as Hnone.
    { destruct (view t (q ++ r' ++ [x])) as [s|] eqn:Hv; [|reflexivity].
      pose proof (view_below_file _ _ _ _ _ Hq Hv) as E.
      destruct r'; discriminate. }
    rewrite is_file_view, is_dir_view, Hnone. split; [|reflexivity].
    rewrite app_assoc, os_mkdir_snoc, stat_app.
    apply view_file in Hq. rewrite Hq.
    destruct r' as [|y r']; reflexivity.
Qed.

Lemma Path_mkdir_blocked (p : list string) (ok : bool) (t : node) :
  no_file_on t p = false ->
  Path_mkdir p true ok t
  = (Raise (OSError (if is_file t p then EEXIST else ENOTDIR) (str_abs p) None),
     t).
Proof.
  intros H. destruct (os_mkdir_blocked _ _ H) as [Hmk Hdir].
  unfold Path_mkdir. rewrite mkdir_parents_eq, rev_involutive, Hmk, Hdir.
  rewrite andb_false_r. destruct (is_file t p); reflexivity.
Qed.

(** X15. With a regular file at the place of a parent of the target, and the
    path of the target within the limits of the system, nothing can be
    created: [create_file] reports the [OSError] of
    [parent.mkdir], FileExistsError when the direct parent is that file and
    NotADirectoryError when the file lies higher up, [create_folder] reports
    its failure, and both leave the filesystem as it was. *)
Theorem blocked_by_file (self : AssistantFnc) (p : string)
    (full : list string) (t : node) :
  _validate_path self p = inr full ->
  full <> [] ->
  no_file_on t (parent full) = false ->
  within_limits full = true ->
  (forall c,
     create_file self p c t
     = (Ok ("Error creating " +:+ p +:+ ": "
            +:+ str_exn (OSError (if is_file t (parent full) then EEXIST
                                  else ENOTDIR)
                           (str_abs (parent full)) None)), t))
  /\ (forall overwrite,
        create_folder self p overwrite t
        = (Ok ("Failed to create folder " +:+ p), t)).
Proof.
  intros Hv Hne Hway _. split.
  - intros c. unfold create_file. unfold_op.
    rewrite Hv. cbv beta iota. rewrite (Path_mkdir_blocked _ _ _ Hway).
    reflexivity.
  - intros overwrite.
    destruct (snoc_cases full) as [->|(par & x & ->)]; [congruence|].
    rewrite parent_snoc in Hway.
    pose proof Hway as Hfile.
    apply no_file_on_false in Hfile as (q & r & c & -> & Hq).
    assert (view t ((q ++ r) ++ [x]) = None) as Hnone.
    { destruct (view t ((q ++ r) ++ [x])) as [s|] eqn:Hs; [|reflexivity].
      rewrite <- app_assoc in Hs.
      pose proof (view_below_file _ _ _ _ _ Hq Hs) as E.
      destruct r; discriminate. }
    assert (no_file_on t ((q ++ r) ++ [x]) = false) as Hway'.
    { destruct (no_file_on t ((q ++ r) ++ [x])) eqn:E; [|reflexivity].
      assert (is_file t q = false) as Hf.
      { apply (no_file_on_spec _ _ _ E).
        rewrite <- app_assoc. apply is_relative_to_app. }
      rewrite is_file_view, Hq in Hf. discriminate. }
    unfold create_folder. unfold_op.
    rewrite Hv. cbv beta iota. rewrite exists_view, Hnone. cbv beta iota.
    rewrite (Path_mkdir_blocked _ _ _ Hway'). reflexivity.
Qed.

Lemma blocked_by_file_witness :
  _validate_path demo_store "notes.txt/sub/new"
  = inr ["srv"; "scratchpad"; "notes.txt"; "sub"; "new"]
  /\ no_file_on demo_fs ["srv"; "scratchpad"; "notes.txt"; "sub"] = false
  /\ within_limits ["srv"; "scratchpad"; "notes.txt"; "sub"; "new"] = true
  /\ create_file demo_store "notes.txt/sub/new" "x" demo_fs
     = (Ok "Error creating notes.txt/sub/new: [Errno 20] Not a directory: '/srv/scratchpad/notes.txt/sub'",
        demo_fs)
  /\ create_folder demo_store "notes.txt/sub/new" false demo_fs
     = (Ok "Failed to create folder notes.txt/sub/new", demo_fs).
Proof.
  split; [reflexivity|]. split; [reflexivity|]. split; [reflexivity|].
  destruct (blocked_by_file demo_store "notes.txt/sub/new"
              ["srv"; "scratchpad"; "notes.txt"; "sub"; "new"] demo_fs
              eq_refl) as [H1 H2]; [discriminate|reflexivity|reflexivity|].
  split; [exact (H1 "x")|exact (H2 false)].
Defined.
